(** * Teleportation-based BB84: the round engine and the orchestrator

    A shallow embedding of [teleport_qkd_custom.py]:
    [prepare_bb84_state], [bell_pair], [run_single_round],
    [run_protocol] and the command line of [__main__], together with
    the two things the program talks to: Python's [random] module and
    the circuit backend.

    - Python values are dynamically typed; the values that reach the
      protocol code are embedded in [atom] (scalars) and [pyval]
      (scalars, lists of scalars, string-keyed dicts).
    - A [QuantumCircuit] is the list of instructions appended so far.
    - The program is effectful (random draws, the backend call, the
      one-shot [_DEBUG_CIRCUIT] flag, exceptions): it lives in a state
      and error monad [M] over a [world].
    - The backend is an exact state-vector simulator for the five
      instructions the program emits, over 3 qubits, with integer
      amplitudes. *)

From Stdlib Require Import ZArith NArith QArith List Bool Ascii String Lia.
From stdpp Require Import base option list strings gmap.

Local Open Scope Z_scope.

(** ** Python values *)

Module Py.

(** Scalars: [None], [bool], [int], [str]. *)
Inductive atom : Type :=
  | ANone
  | ABool (b : bool)
  | AInt (z : Z)
  | AStr (s : string).

(** What can be bound to [custom_inputs]: a scalar, a list of scalars, or
    a dict with string keys. *)
#[warnings="-register-all"]
Inductive pyval : Type :=
  | PAtom (a : atom)
  | PList (l : list atom)
  | PDict (d : gmap string pyval).

Inductive exn : Type := IndexError | KeyError | TypeError | ValueError.

Inductive result (A : Type) : Type :=
  | Ok (a : A)
  | Raise (e : exn).
Arguments Ok {A} a.
Arguments Raise {A} e.

(** Python's [==] on scalars. [bool] is a subclass of [int]:
    [True == 1] and [False == 0]. *)
Definition int_of_bool (b : bool) : Z := if b then 1 else 0.

Definition eq (a b : atom) : bool :=
  match a, b with
  | ANone, ANone => true
  | ABool p, ABool q => Bool.eqb p q
  | ABool p, AInt z => int_of_bool p =? z
  | AInt z, ABool q => z =? int_of_bool q
  | AInt y, AInt z => y =? z
  | AStr s, AStr t => if decide (s = t) then true else false
  | _, _ => false
  end.

Definition ne (a b : atom) : bool := negb (eq a b).

(** Truth value of an object, as tested by [if custom_inputs:]. *)
Definition truthy_atom (a : atom) : bool :=
  match a with
  | ANone => false
  | ABool b => b
  | AInt z => negb (z =? 0)
  | AStr s => negb (if decide (s = EmptyString) then true else false)
  end.

Definition truthy (v : pyval) : bool :=
  match v with
  | PAtom a => truthy_atom a
  | PList l => negb (Nat.eqb (length l) 0)
  | PDict d => negb (Nat.eqb (size d) 0)
  end.

(** [v[k]] for a string key [k]. Only a dict accepts it. *)
Definition getitem_key (v : pyval) (k : string) : result pyval :=
  match v with
  | PDict d => match d !! k with Some x => Ok x | None => Raise KeyError end
  | _ => Raise TypeError
  end.

(** [v[i]] for an index [i >= 0]: a list or a string yields its [i]-th
    element or raises [IndexError]; a dict with string keys has no
    integer key; the other scalars are not subscriptable. *)
Definition getitem_index (v : pyval) (i : nat) : result atom :=
  match v with
  | PList l => match l !! i with Some a => Ok a | None => Raise IndexError end
  | PAtom (AStr s) =>
      match String.get i s with
      | Some c => Ok (AStr (String c EmptyString))
      | None => Raise IndexError
      end
  | PDict _ => Raise KeyError
  | PAtom _ => Raise TypeError
  end.

End Py.
Import Py.

(** ** Circuits *)

(** The instructions the program appends to its [QuantumCircuit]; qubits
    [qr[0..2]] and classical bits [cr[0..2]] are their indices. *)
Inductive instruction : Type :=
  | HGate (q : nat)
  | XGate (q : nat)
  | CXGate (c t : nat)
  | CZGate (a b : nat)
  | Measure (q c : nat).

Definition QuantumCircuit := list instruction.

Definition qc_h (qc : QuantumCircuit) (q : nat) : QuantumCircuit := qc ++ [HGate q].
Definition qc_x (qc : QuantumCircuit) (q : nat) : QuantumCircuit := qc ++ [XGate q].
Definition qc_cx (qc : QuantumCircuit) (c t : nat) : QuantumCircuit := qc ++ [CXGate c t].
Definition qc_cz (qc : QuantumCircuit) (a b : nat) : QuantumCircuit := qc ++ [CZGate a b].
Definition qc_measure (qc : QuantumCircuit) (q c : nat) : QuantumCircuit :=
  qc ++ [Measure q c].

(** [prepare_bb84_state(qc, q, bit, basis)] *)
Definition prepare_bb84_state (qc : QuantumCircuit) (q : nat) (bit basis : atom)
  : QuantumCircuit :=
  if Py.eq basis (AStr "Z") then
    if Py.eq bit (AInt 1) then qc_x qc q else qc
  else if Py.eq basis (AStr "X") then
    if Py.eq bit (AInt 0) then qc_h qc q
    else qc_h (qc_x qc q) q
  else qc.

(** [bell_pair(qc, a, b)] *)
Definition bell_pair (qc : QuantumCircuit) (a b : nat) : QuantumCircuit :=
  qc_cx (qc_h qc a) a b.

(** ** The backend: exact simulation of a 3-qubit circuit *)

Module Sim.

(** A state is the vector of its 8 amplitudes; index [i] is the basis
    state in which qubit [q] has value [Nat.testbit i q]. Every
    Hadamard is applied without its factor 1/sqrt 2, so after [h]
    Hadamards the stored vector is the true one times sqrt 2 ^ h: the
    amplitudes stay integers, and as all branches of one circuit have
    seen the same gates, the common factor cancels in every
    probability. *)
Definition qstate := list Z.

Definition dim : nat := 8.

Definition amp (s : qstate) (i : nat) : Z := nth i s 0.
Definition tabulate (f : nat -> Z) : qstate := map f (seq 0 dim).
Definition qbit (i q : nat) : bool := Nat.testbit i q.
Definition flip (i q : nat) : nat := Nat.lxor i (2 ^ q).

Definition init : qstate := tabulate (fun i => if Nat.eqb i 0 then 1 else 0).

Definition gate_x (q : nat) (s : qstate) : qstate :=
  tabulate (fun i => amp s (flip i q)).

Definition gate_h (q : nat) (s : qstate) : qstate :=
  tabulate (fun i =>
    if qbit i q then amp s (flip i q) - amp s i
    else amp s i + amp s (flip i q)).

Definition gate_cx (c t : nat) (s : qstate) : qstate :=
  tabulate (fun i => amp s (if qbit i c then flip i t else i)).

Definition gate_cz (a b : nat) (s : qstate) : qstate :=
  tabulate (fun i => if qbit i a && qbit i b then - amp s i else amp s i).

(** Projection on "qubit [q] reads [b]", not renormalised. *)
Definition project (q : nat) (b : bool) (s : qstate) : qstate :=
  tabulate (fun i => if Bool.eqb (qbit i q) b then amp s i else 0).

(** Squared norm; the weight of a branch. *)
Definition weight (s : qstate) : Z := fold_right (fun a acc => a * a + acc) 0 s.

(** One run of the circuit is a path through its measurements; a branch
    records the classical register written so far ([cr[k]] is the
    [k]-th element) and the projected state. *)
Record branch : Type := { creg : list bool; state : qstate }.

Definition step (i : instruction) (b : branch) : list branch :=
  match i with
  | HGate q => [ {| creg := creg b; state := gate_h q (state b) |} ]
  | XGate q => [ {| creg := creg b; state := gate_x q (state b) |} ]
  | CXGate c t => [ {| creg := creg b; state := gate_cx c t (state b) |} ]
  | CZGate a c => [ {| creg := creg b; state := gate_cz a c (state b) |} ]
  | Measure q c =>
      [ {| creg := <[c := false]> (creg b); state := project q false (state b) |};
        {| creg := <[c := true]> (creg b); state := project q true (state b) |} ]
  end.

Definition run (qc : QuantumCircuit) : list branch :=
  fold_left (fun bs i => flat_map (step i) bs) qc
            [ {| creg := [false; false; false]; state := init |} ].

(** The outcomes that can be observed, each with its weight. *)
Definition outcomes (qc : QuantumCircuit) : list (list bool * Z) :=
  List.filter (fun o => negb (snd o =? 0))
              (map (fun b => (creg b, weight (state b))) (run qc)).

End Sim.

(** ** The world the program runs in *)

(** [py_random] is the stream of raw draws of Python's [random] module
    and [backend_seed] the one the backend samples its shots from;
    [_DEBUG_CIRCUIT] is the module-level flag; [drawn] and [jobs] log, in
    order, the circuits rendered and the circuits handed to
    [backend.run]. *)
Record world : Type := {
  py_random : nat -> N;
  py_random_pos : nat;
  backend_seed : nat -> N;
  backend_pos : nat;
  _DEBUG_CIRCUIT : bool;
  drawn : list QuantumCircuit;
  jobs : list QuantumCircuit
}.

Definition M (A : Type) : Type := world -> result A * world.

Definition ret {A} (a : A) : M A := fun w => (Ok a, w).

Definition bind {A B} (m : M A) (k : A -> M B) : M B :=
  fun w =>
    match m w with
    | (Ok a, w') => k a w'
    | (Raise e, w') => (Raise e, w')
    end.

Definition lift {A} (r : result A) : M A := fun w => (r, w).

Declare Scope py_scope.
Delimit Scope py_scope with py.
Notation "x <- m ;; k" := (bind m (fun x => k))
  (at level 100, m at next level, right associativity) : py_scope.
Notation "m ;;; k" := (bind m (fun _ => k))
  (at level 100, right associativity) : py_scope.
Local Open Scope py_scope.

(** *** Python's [random] *)

Definition tick_random (w : world) : world :=
  {| py_random := py_random w; py_random_pos := S (py_random_pos w);
     backend_seed := backend_seed w; backend_pos := backend_pos w;
     _DEBUG_CIRCUIT := _DEBUG_CIRCUIT w; drawn := drawn w; jobs := jobs w |}.

Definition next_draw : M N :=
  fun w => (Ok (py_random w (py_random_pos w)), tick_random w).

(** [random.random()]: a float k / 2^53 with k uniform in [0, 2^53);
    such a value is a rational, kept exactly. *)
Definition random_random : M Q :=
  u <- next_draw ;;
  ret (Z.of_N (u mod 2 ^ 53) # 2 ^ 53)%Q.

(** [random.choice(seq)]: [seq[k]] with k uniform below [len(seq)]. *)
Definition random_choice {A} (seq : list A) : M A :=
  u <- next_draw ;;
  match seq !! (N.to_nat u mod length seq)%nat with
  | Some a => ret a
  | None => lift (Raise IndexError)
  end.

(** *** The backend *)

Definition counts := list (string * nat).

Fixpoint pick (os : list (list bool * Z)) (r : Z) : option (list bool) :=
  match os with
  | [] => None
  | (c, w) :: rest => if r <? w then Some c else pick rest (r - w)
  end.

Definition total_weight (os : list (list bool * Z)) : Z :=
  fold_right (fun o acc => snd o + acc) 0 os.

(** One shot: an outcome is drawn with probability proportional to its
    weight. *)
Definition shot (qc : QuantumCircuit) (r : N) : option (list bool) :=
  let os := Sim.outcomes qc in
  pick os (Z.of_N r mod total_weight os).

Definition bit_char (b : bool) : ascii := if b then "1"%char else "0"%char.

(** The key under which [get_counts()] reports an outcome. Qiskit writes
    a register as a bit string with the highest classical bit first and
    classical bit 0 last (little-endian bit strings), and separates
    registers by spaces; the program has the single 3-bit register [c],
    so the key of the outcome [cr] is the three characters
    [cr[2] cr[1] cr[0]]. *)
Definition counts_key (cr : list bool) : string :=
  string_of_list_ascii (map bit_char (rev cr)).

(** [backend.run(transpile(qc, backend), shots=1).result().get_counts()] *)
Definition log_job (qc : QuantumCircuit) (w : world) : world :=
  {| py_random := py_random w; py_random_pos := py_random_pos w;
     backend_seed := backend_seed w; backend_pos := S (backend_pos w);
     _DEBUG_CIRCUIT := _DEBUG_CIRCUIT w; drawn := drawn w;
     jobs := jobs w ++ [qc] |}.

Definition backend_run (qc : QuantumCircuit) : M counts :=
  fun w =>
    let r := backend_seed w (backend_pos w) in
    (Ok (match shot qc r with
         | Some cr => [(counts_key cr, 1%nat)]
         | None => []
         end),
     log_job qc w).

(** *** The one-shot rendering of the circuit *)

Definition log_drawing (qc : QuantumCircuit) (w : world) : world :=
  {| py_random := py_random w; py_random_pos := py_random_pos w;
     backend_seed := backend_seed w; backend_pos := backend_pos w;
     _DEBUG_CIRCUIT := false; drawn := drawn w ++ [qc]; jobs := jobs w |}.

Definition draw_once (qc : QuantumCircuit) : M unit :=
  fun w => if _DEBUG_CIRCUIT w then (Ok tt, log_drawing qc w) else (Ok tt, w).

(** *** Reading the counts *)

(** [max(result, key=result.get)]: the first key, in the dict's order,
    whose count is maximal; [ValueError] on an empty dict. *)
Fixpoint max_from (best : string * nat) (rest : counts) : string :=
  match rest with
  | [] => fst best
  | kv :: rest' =>
      if (snd best <? snd kv)%nat then max_from kv rest' else max_from best rest'
  end.

Definition max_key (result : counts) : Py.result string :=
  match result with
  | [] => Raise ValueError
  | kv :: rest => Ok (max_from kv rest)
  end.

(** [key.replace(' ', '')] *)
Fixpoint remove_spaces (key : string) : string :=
  match key with
  | EmptyString => EmptyString
  | String c rest =>
      if Ascii.eqb c " "%char then remove_spaces rest
      else String c (remove_spaces rest)
  end.

(** [key[-1]] *)
Fixpoint last_char (key : string) : Py.result ascii :=
  match key with
  | EmptyString => Raise IndexError
  | String c EmptyString => Ok c
  | String _ rest => last_char rest
  end.

(** [int(c)] for a one-character string. *)
Definition int_of_char (c : ascii) : Py.result Z :=
  let n := nat_of_ascii c in
  if (48 <=? n)%nat && (n <=? 57)%nat then Ok (Z.of_nat (n - 48)) else Raise ValueError.

(** ** One round *)

Definition Qlt_bool (x y : Q) : bool := negb (Qle_bool y x).

(** [run_single_round(alice_bit, alice_basis, bob_basis, use_eve)].
    [use_eve and random.random() < 0.5] draws only when [use_eve]
    holds. *)
Definition run_single_round (alice_bit alice_basis bob_basis : atom) (use_eve : bool)
  : M (atom * atom * atom * Z) :=
  let qc : QuantumCircuit := [] in
  (* Step 1: Bell pair between q1 (Alice) and q2 (Bob) *)
  let qc := bell_pair qc 1 2 in
  (* Optional Eve attack *)
  attack <- (if use_eve then
               u <- random_random ;; ret (Qlt_bool u (1 # 2))
             else ret false) ;;
  qc <- (if attack : bool then
           eve_basis <- random_choice [AStr "Z"; AStr "X"] ;;
           let qc := if Py.eq eve_basis (AStr "X") then qc_h qc 1 else qc in
           let qc := qc_measure qc 1 0 in
           let qc := if Py.eq eve_basis (AStr "X") then qc_h qc 1 else qc in
           ret qc
         else ret qc) ;;
  (* Step 2: Alice prepares her qubit *)
  let qc := prepare_bb84_state qc 0 alice_bit alice_basis in
  (* Step 3: Alice performs Bell measurement *)
  let qc := qc_cx qc 0 1 in
  let qc := qc_h qc 0 in
  let qc := qc_measure qc 0 0 in
  let qc := qc_measure qc 1 1 in
  (* Step 4: Bob's corrections *)
  let qc := qc_cx qc 1 2 in
  let qc := qc_cz qc 0 2 in
  (* Step 5: Bob measures in chosen basis *)
  let qc := if Py.eq bob_basis (AStr "X") then qc_h qc 2 else qc in
  let qc := qc_measure qc 2 2 in
  draw_once qc ;;;
  result <- backend_run qc ;;
  key <- lift (max_key result) ;;
  let key := remove_spaces key in
  c <- lift (last_char key) ;;
  measured_bit <- lift (int_of_char c) ;;
  ret (alice_bit, alice_basis, bob_basis, measured_bit).

(** ** The protocol *)

Record ProtocolRun : Type := {
  raw_rounds : Z;
  sifted_length : nat;
  qber : option Q;
  alice_bits : list atom;
  bob_results : list Z;
  alice_bases : list atom;
  bob_bases : list atom;
  sifted_alice : list atom;
  sifted_bob : list Z
}.

(** The four lists the collecting loop appends to. *)
Record collected : Type := {
  c_alice_bits : list atom;
  c_alice_bases : list atom;
  c_bob_bases : list atom;
  c_bob_results : list Z
}.

(** The choice of one round's inputs (the [if custom_inputs:] of the
    loop body). *)
Definition round_inputs (custom_inputs : pyval) (i : nat) : M (atom * atom * atom) :=
  if truthy custom_inputs then
    bits <- lift (getitem_key custom_inputs "alice_bits") ;;
    a_bit <- lift (getitem_index bits i) ;;
    abases <- lift (getitem_key custom_inputs "alice_bases") ;;
    a_basis <- lift (getitem_index abases i) ;;
    bbases <- lift (getitem_key custom_inputs "bob_bases") ;;
    b_basis <- lift (getitem_index bbases i) ;;
    ret (a_bit, a_basis, b_basis)
  else
    a_bit <- random_choice [AInt 0; AInt 1] ;;
    a_basis <- random_choice [AStr "Z"; AStr "X"] ;;
    b_basis <- random_choice [AStr "Z"; AStr "X"] ;;
    ret (a_bit, a_basis, b_basis).

(** The body of [for i in range(num_rounds)], over the indices still to
    come. *)
Fixpoint collect (use_eve : bool) (custom_inputs : pyval) (range : list nat)
    (acc : collected) : M collected :=
  match range with
  | [] => ret acc
  | i :: range' =>
      inp <- round_inputs custom_inputs i ;;
      let '(a_bit, a_basis, b_basis) := inp in
      out <- run_single_round a_bit a_basis b_basis use_eve ;;
      let '(_, _, _, b_meas) := out in
      collect use_eve custom_inputs range'
        {| c_alice_bits := c_alice_bits acc ++ [a_bit];
           c_alice_bases := c_alice_bases acc ++ [a_basis];
           c_bob_bases := c_bob_bases acc ++ [b_basis];
           c_bob_results := c_bob_results acc ++ [b_meas] |}
  end.

(** [zip] of four lists stops at the shortest. *)
Fixpoint zip4 {A B C D} (l1 : list A) (l2 : list B) (l3 : list C) (l4 : list D)
  : list (A * B * C * D) :=
  match l1, l2, l3, l4 with
  | a :: l1', b :: l2', c :: l3', d :: l4' => (a, b, c, d) :: zip4 l1' l2' l3' l4'
  | _, _, _, _ => []
  end.

(** The sifting loop. *)
Definition sift (rows : list (atom * atom * atom * Z)) : list atom * list Z :=
  fold_left
    (fun (acc : list atom * list Z) (row : atom * atom * atom * Z) =>
       let '(a_b, a_k, b_b, b_m) := row in
       if Py.eq a_b b_b then (fst acc ++ [a_k], snd acc ++ [b_m]) else acc)
    rows ([], []).

(** [sum(1 for x, y in zip(sifted_alice, sifted_bob) if x != y)] *)
Definition count_errors (sifted_alice : list atom) (sifted_bob : list Z) : Z :=
  fold_right Z.add 0
    (flat_map (fun xy : atom * Z => if Py.ne (fst xy) (AInt (snd xy)) then [1] else [])
              (zip sifted_alice sifted_bob)).

(** *** Python's true division of two ints

    [errors / len(sifted_alice)] is a float: the binary64 number nearest
    to the exact quotient, and of two equally near ones the one with the
    even significand. [run_protocol] divides a count [e] by a length
    [l] with [0 <= e <= l] and [0 < l] only. For these the float is
    [m / 2^k], where [2^-k] is the spacing of binary64 around the
    quotient ([2^52 <= e * 2^k / l < 2^53], and [k] no more than 1074,
    the spacing of the subnormal numbers) and [m] is [e * 2^k / l]
    rounded to an integer. The float is kept as this rational: its
    exact value. *)
Definition float_exponent (e l : Z) : Z :=
  let d := Z.log2 l - Z.log2 e in
  Z.min 1074 (if l <=? e * 2 ^ d then 52 + d else 53 + d).

Definition float_mantissa (e l : Z) : Z :=
  let k := float_exponent e l in
  let m := (e * 2 ^ k) / l in
  let r := (e * 2 ^ k) mod l in
  if (l <? 2 * r) || ((l =? 2 * r) && Z.odd m) then m + 1 else m.

Definition int_truediv (e l : Z) : Q :=
  if e =? 0 then 0%Q
  else (float_mantissa e l # Z.to_pos (2 ^ float_exponent e l))%Q.

(** [run_protocol(num_rounds, use_eve, custom_inputs)]. [None] is
    [PAtom ANone]. *)
Definition run_protocol (num_rounds : Z) (use_eve : bool) (custom_inputs : pyval)
  : M ProtocolRun :=
  acc <- collect use_eve custom_inputs (seq 0 (Z.to_nat num_rounds))
           {| c_alice_bits := []; c_alice_bases := []; c_bob_bases := [];
              c_bob_results := [] |} ;;
  let alice_bits := c_alice_bits acc in
  let alice_bases := c_alice_bases acc in
  let bob_bases := c_bob_bases acc in
  let bob_results := c_bob_results acc in
  (* Sifting step *)
  let sifted := sift (zip4 alice_bases alice_bits bob_bases bob_results) in
  let sifted_alice := fst sifted in
  let sifted_bob := snd sifted in
  let qber :=
    if Nat.eqb (length sifted_alice) 0 then None
    else
      let errors := count_errors sifted_alice sifted_bob in
      Some (int_truediv errors (Z.of_nat (length sifted_alice))) in
  ret {| raw_rounds := num_rounds;
         sifted_length := length sifted_alice;
         qber := qber;
         alice_bits := alice_bits;
         bob_results := bob_results;
         alice_bases := alice_bases;
         bob_bases := bob_bases;
         sifted_alice := sifted_alice;
         sifted_bob := sifted_bob |}.

(** ** The round, described piece by piece

    The definitions of this part restate what a round does in the terms
    of the specification; the theorems below relate them to
    [run_single_round] and [run_protocol]. *)

(** The pair is "between q1 (Alice) and q2 (Bob)"; Bob's own measurement
    (step 5) is on [qr[2]] and writes [cr[2]]. *)
Definition sender_half : nat := 1.
Definition receiver_half : nat := 2.
Definition receiver_slot : nat := 2.

(** What the eavesdropper adds when it measures in [eve_basis]. *)
Definition eve_ops (eve : option atom) : QuantumCircuit :=
  match eve with
  | None => []
  | Some eve_basis =>
      (if Py.eq eve_basis (AStr "X") then [HGate sender_half] else [])
      ++ [Measure sender_half 0]
      ++ (if Py.eq eve_basis (AStr "X") then [HGate sender_half] else [])
  end.

(** The circuit of a round in which the eavesdropper made the choice
    [eve] ([None]: no interception). *)
Definition round_circuit (eve : option atom) (alice_bit alice_basis bob_basis : atom)
  : QuantumCircuit :=
  [HGate 1; CXGate 1 2]
  ++ eve_ops eve
  ++ prepare_bb84_state [] 0 alice_bit alice_basis
  ++ [CXGate 0 1; HGate 0; Measure 0 0; Measure 1 1; CXGate 1 2; CZGate 0 2]
  ++ (if Py.eq bob_basis (AStr "X") then [HGate 2] else [])
  ++ [Measure receiver_half receiver_slot].

(** The eavesdropper's choice as a function of the next draws of
    [random]: it acts when the first one, as a 53-bit fraction, is below
    one half, and then measures in Z or X according to the second. *)
Definition eve_acts (u : N) : bool := (u mod 2 ^ 53 <? 2 ^ 52)%N.

Definition eve_decision (use_eve : bool) (w : world) : option atom :=
  if use_eve && eve_acts (py_random w (py_random_pos w)) then
    Some (if N.even (py_random w (S (py_random_pos w))) then AStr "Z" else AStr "X")
  else None.

(** The world once the eavesdropper has drawn. *)
Definition eve_ticks (use_eve : bool) (w : world) : world :=
  if use_eve then
    if eve_acts (py_random w (py_random_pos w)) then tick_random (tick_random w)
    else tick_random w
  else w.

Definition Z_of_bit (b : bool) : Z := if b then 1 else 0.

(** The tail of [run_single_round], from the rendering on. *)
Definition read_out (qc : QuantumCircuit) (w : world) : result Z * world :=
  let w1 := if _DEBUG_CIRCUIT w then log_drawing qc w else w in
  let r := backend_seed w1 (backend_pos w1) in
  (match shot qc r with
   | Some cr =>
       match last_char (remove_spaces (counts_key cr)) with
       | Ok c => int_of_char c
       | Raise e => Raise e
       end
   | None => Raise ValueError
   end,
   log_job qc w1).

(** Bits and bases of the data model as Python values. *)
Definition bit_atom (b : bool) : atom := AInt (Z_of_bit b).
Definition basis_atom (x : bool) : atom := AStr (if x then "X" else "Z").

(** The steps by which a bit is taken out of the counts. *)
Definition measured_bit_of_counts (result : counts) : Py.result Z :=
  match max_key result with
  | Ok key =>
      match last_char (remove_spaces key) with
      | Ok c => int_of_char c
      | Raise e => Raise e
      end
  | Raise e => Raise e
  end.

(** Total weight of the outcomes whose register satisfies [P]. *)
Definition weight_where (P : list bool -> bool) (os : list (list bool * Z)) : Z :=
  total_weight (List.filter (fun o => P (fst o)) os).

(** A world with constant draws, for running the program on examples. *)
Definition constant_world (u r : N) : world :=
  {| py_random := fun _ => u; py_random_pos := 0;
     backend_seed := fun _ => r; backend_pos := 0;
     _DEBUG_CIRCUIT := true; drawn := []; jobs := [] |}.

(** The number of Hadamards of a circuit: the stored amplitudes carry
    the factor sqrt 2 to that power, the weights 2 to that power. *)
Definition hadamards (qc : QuantumCircuit) : nat :=
  length (List.filter (fun i => match i with HGate _ => true | _ => false end) qc).

(** The first measurement of a circuit: the qubit measured and the
    classical bit written. *)
Fixpoint first_measure (qc : QuantumCircuit) : option (nat * nat) :=
  match qc with
  | [] => None
  | Measure q c :: _ => Some (q, c)
  | _ :: rest => first_measure rest
  end.

(** ** The run, described by round index *)

(** Round [i] is kept by the sifting when Alice's and Bob's bases of
    that round are equal. *)
Definition agree_at (ab bb : list atom) (i : nat) : bool :=
  match ab !! i, bb !! i with
  | Some a, Some b => Py.eq a b
  | _, _ => false
  end.

Definition bases_agree (r : ProtocolRun) (i : nat) : bool :=
  agree_at (alice_bases r) (bob_bases r) i.

Definition matching_rounds (r : ProtocolRun) : list nat :=
  List.filter (bases_agree r) (seq 0 (Z.to_nat (raw_rounds r))).

(** Position [k] of the sifted keys is an error when the two keys differ
    there. *)
Definition differ_at (sa : list atom) (sb : list Z) (k : nat) : bool :=
  match sa !! k, sb !! k with
  | Some x, Some y => Py.ne x (AInt y)
  | _, _ => false
  end.

Definition sifted_differ (r : ProtocolRun) (k : nat) : bool :=
  differ_at (sifted_alice r) (sifted_bob r) k.

Definition error_count (r : ProtocolRun) : nat :=
  length (List.filter (sifted_differ r) (seq 0 (length (sifted_alice r)))).

(** "[e] divided by [l]" as a float: [q] is a multiple [m / 2^k] of
    the spacing [2^-k] that binary64 has around the exact quotient
    (the quotient is in the binade [2^52 <= e * 2^k / l < 2^53], or
    below the normal numbers, where the spacing is [2^-1074]), no
    multiple is nearer to [e / l], and [m] is even when [e / l] is
    half way between two of them. *)
Definition nearest_binary64 (q : Q) (e l : Z) : Prop :=
  exists m k : Z,
    (q == m # Z.to_pos (2 ^ k))%Q
    /\ 0 <= k <= 1074
    /\ (2 ^ 52 * l <= e * 2 ^ k < 2 ^ 53 * l
        \/ k = 1074 /\ e * 2 ^ k < 2 ^ 52 * l)
    /\ 2 * Z.abs (m * l - e * 2 ^ k) <= l
    /\ (2 * Z.abs (m * l - e * 2 ^ k) = l -> Z.even m = true).

(** [custom_inputs] is a dict holding the three arrays. *)
Definition custom_arrays (custom_inputs : pyval) (bits abases bbases : list atom) : Prop :=
  exists d : gmap string pyval,
    custom_inputs = PDict d
    /\ d !! "alice_bits" = Some (PList bits)
    /\ d !! "alice_bases" = Some (PList abases)
    /\ d !! "bob_bases" = Some (PList bbases).

Definition shortest (bits abases bbases : list atom) : nat :=
  Nat.min (length bits) (Nat.min (length abases) (length bbases)).

(** "The run fails before any round executes": it raises, and no job
    has reached the backend. *)
Definition fails_before_any_round (num_rounds : Z) (use_eve : bool)
    (custom_inputs : pyval) (w : world) : Prop :=
  exists e, fst (run_protocol num_rounds use_eve custom_inputs w) = Raise e
            /\ jobs (snd (run_protocol num_rounds use_eve custom_inputs w)) = jobs w.

(** The three inputs of a round as drawn from [random]. *)
Definition drawn_inputs (w : world) : atom * atom * atom :=
  let p := py_random_pos w in
  (if N.even (py_random w p) then AInt 0 else AInt 1,
   if N.even (py_random w (S p)) then AStr "Z" else AStr "X",
   if N.even (py_random w (S (S p))) then AStr "Z" else AStr "X").

(** The inputs of the rounds of a run on sampled inputs, read off the
    stream of [random] from position [pos] on: a round draws its bit
    and its two bases (lines 96-98), and then, with the eavesdropper,
    one more number (line 42), and a further one when the eavesdropper
    acts (line 43). *)
Fixpoint sampled_inputs (use_eve : bool) (stream : nat -> N) (pos rounds : nat)
  : list (atom * atom * atom) :=
  match rounds with
  | O => []
  | S rounds' =>
      let pos' := S (S (S pos)) in
      (if N.even (stream pos) then AInt 0 else AInt 1,
       if N.even (stream (S pos)) then AStr "Z" else AStr "X",
       if N.even (stream (S (S pos))) then AStr "Z" else AStr "X")
      :: sampled_inputs use_eve stream
           (pos' + (if use_eve then if eve_acts (stream pos') then 2 else 1 else 0))
           rounds'
  end.

Definition is_bit (a : atom) : Prop := a = AInt 0 \/ a = AInt 1.
Definition is_basis (a : atom) : Prop := a = AStr "Z" \/ a = AStr "X".

(** ** Definitions used by the proofs *)

(** One row of the sifting loop's [zip], and what the loop reads of it. *)
Definition agree_row (row : atom * atom * atom * Z) : bool :=
  let '(a_b, _, b_b, _) := row in Py.eq a_b b_b.
Definition alice_key (row : atom * atom * atom * Z) : atom :=
  let '(_, a_k, _, _) := row in a_k.
Definition bob_key (row : atom * atom * atom * Z) : Z :=
  let '(_, _, _, b_m) := row in b_m.

(** The accumulator the collecting loop starts from, and the invariant
    it keeps. *)
Definition empty_collected : collected :=
  {| c_alice_bits := []; c_alice_bases := []; c_bob_bases := []; c_bob_results := [] |}.

Definition same_lengths (acc : collected) (n : nat) : Prop :=
  length (c_alice_bits acc) = n /\ length (c_alice_bases acc) = n
  /\ length (c_bob_bases acc) = n /\ length (c_bob_results acc) = n.

(** Three arrays of one element each. *)
Definition one_round_inputs : pyval :=
  PDict (<["alice_bits" := PList [AInt 1]]>
         (<["alice_bases" := PList [AStr "Z"]]>
          (<["bob_bases" := PList [AStr "Z"]]> ∅))).

(** Three rounds, the bases agreeing in the first and the last, and the
    run they give when every shot falls on the first outcome. *)
Definition three_round_inputs : pyval :=
  PDict (<["alice_bits" := PList [AInt 1; AInt 0; AInt 1]]>
         (<["alice_bases" := PList [AStr "Z"; AStr "X"; AStr "Z"]]>
          (<["bob_bases" := PList [AStr "Z"; AStr "Z"; AStr "Z"]]> ∅))).

Definition three_round_run : ProtocolRun :=
  {| raw_rounds := 3;
     sifted_length := 2;
     qber := Some (int_truediv 2 2);
     alice_bits := [AInt 1; AInt 0; AInt 1];
     bob_results := [0; 0; 0];
     alice_bases := [AStr "Z"; AStr "X"; AStr "Z"];
     bob_bases := [AStr "Z"; AStr "Z"; AStr "Z"];
     sifted_alice := [AInt 1; AInt 1];
     sifted_bob := [0; 0] |}.

(** Three rounds in which all bases are Z. *)
Definition all_Z_inputs : pyval :=
  PDict (<["alice_bits" := PList [AInt 1; AInt 1; AInt 0]]>
         (<["alice_bases" := PList [AStr "Z"; AStr "Z"; AStr "Z"]]>
          (<["bob_bases" := PList [AStr "Z"; AStr "Z"; AStr "Z"]]> ∅))).

(** ** More of the round and of the run *)

(** "Classical bit [k] of the register reads [v]". *)
Definition slot_is (k : nat) (v : bool) (cr : list bool) : bool :=
  bool_decide (cr !! k = Some v).

(** An instruction stays inside the 3-qubit, 3-bit registers, and a
    two-qubit gate has two different qubits. *)
Definition in_registers (i : instruction) : bool :=
  match i with
  | HGate q | XGate q => (q <? 3)%nat
  | CXGate a b | CZGate a b => (a <? 3)%nat && (b <? 3)%nat && negb (a =? b)%nat
  | Measure q c => (q <? 3)%nat && (c <? 3)%nat
  end.

(** How many measurements of a circuit write classical bit [c]. *)
Definition writes_to (c : nat) (qc : QuantumCircuit) : nat :=
  length (List.filter (fun i => match i with
                                | Measure _ c' => (c' =? c)%nat
                                | _ => false
                                end) qc).

(** Measuring both halves of a pair, after a Hadamard on each when the
    basis is X, into classical bits 0 and 1. *)
Definition measure_pair (qc : QuantumCircuit) (a b : nat) (x_basis : bool)
  : QuantumCircuit :=
  let qc := if x_basis then qc_h (qc_h qc a) b else qc in
  qc_measure (qc_measure qc a 0) b 1.

(** "0 or 1", for the bits Bob reports. *)
Definition is_binary (z : Z) : Prop := z = 0 \/ z = 1.

(** The effect of a whole run on the world, as its rounds leave it:
    [js] are the circuits the run handed to the backend, in order. *)
Definition run_effect (use_eve : bool) (custom_inputs : pyval) (w w' : world)
    (js : list QuantumCircuit) : Prop :=
  jobs w' = jobs w ++ js
  /\ drawn w' = drawn w ++ (if _DEBUG_CIRCUIT w then take 1 js else [])
  /\ _DEBUG_CIRCUIT w' = _DEBUG_CIRCUIT w && Nat.eqb (length js) 0
  /\ backend_pos w' = (backend_pos w + length js)%nat
  /\ backend_seed w' = backend_seed w
  /\ py_random w' = py_random w
  /\ exists d,
       py_random_pos w'
       = (py_random_pos w + (if truthy custom_inputs then 0 else 3 * length js) + d)%nat
       /\ if use_eve then (length js <= d <= 2 * length js)%nat else d = 0%nat.

(** The run that did no round at all. *)
Definition empty_run (num_rounds : Z) : ProtocolRun :=
  {| raw_rounds := num_rounds; sifted_length := 0; qber := None;
     alice_bits := []; bob_results := []; alice_bases := []; bob_bases := [];
     sifted_alice := []; sifted_bob := [] |}.

(** The first subscript of round 0 that finds no key in the dict [d]:
    either [d] is not empty and "alice_bits" is missing, or it holds a
    non-empty list and "alice_bases" is missing, or both hold non-empty
    lists and "bob_bases" is missing. *)
Definition lacks_a_key (d : gmap string pyval) : Prop :=
  (d <> ∅ /\ d !! "alice_bits" = None)
  \/ (exists a bits, d !! "alice_bits" = Some (PList (a :: bits))
                     /\ d !! "alice_bases" = None)
  \/ (exists a bits ab abases,
        d !! "alice_bits" = Some (PList (a :: bits))
        /\ d !! "alice_bases" = Some (PList (ab :: abases))
        /\ d !! "bob_bases" = None).

Definition is_dict (v : pyval) : bool :=
  match v with PDict _ => true | _ => false end.

(** ** The command line ([__main__])

    The process has, beside the [world], the lines still to be read from
    standard input and what has been printed. A printed line is kept as
    what was printed, not as its characters: a text, a text with a
    number put in, a summary line with its three values, a label
    followed by a list, the text drawing of a circuit. The rounds print
    too: the round that renders its circuit prints a heading and the
    drawing (lines 71-72), and these reach the same standard output, in
    the order of the calls. [str.strip], [str.lower], [str.split] and
    [int] are Python's own and stay parameters of [main]. *)

Inductive output : Type :=
  | Text (s : string)
  | TextWithCount (before : string) (n : Z) (after : string)
  | Summary (who : string) (rounds : Z) (sifted : nat) (q : Q)
  | Listing (label : string) (values : list atom)
  | Drawing (qc : QuantumCircuit).

Record process : Type := {
  stdin : list string;
  stdout : list output;
  machine : world
}.

(** What can end the program early: an exception of the protocol code
    or of a conversion, or the end of standard input. *)
Inductive cli_exn : Type :=
  | Python (e : exn)
  | EOFError.

Inductive finished (A : Type) : Type :=
  | Returned (a : A)
  | Died (e : cli_exn).
Arguments Returned {A} a.
Arguments Died {A} e.

Definition C (A : Type) : Type := process -> finished A * process.

Definition cret {A} (a : A) : C A := fun p => (Returned a, p).

Definition cbind {A B} (m : C A) (k : A -> C B) : C B :=
  fun p =>
    match m p with
    | (Returned a, p') => k a p'
    | (Died e, p') => (Died e, p')
    end.

Declare Scope cli_scope.
Delimit Scope cli_scope with cli.
Notation "x <-- m ;; k" := (cbind m (fun x => k))
  (at level 100, m at next level, right associativity) : cli_scope.
Notation "m ;;;; k" := (cbind m (fun _ => k))
  (at level 100, right associativity) : cli_scope.

(** [print(...)] *)
Definition print (o : output) : C unit :=
  fun p => (Returned tt,
            {| stdin := stdin p; stdout := stdout p ++ [o]; machine := machine p |}).

(** [input(prompt)]: the prompt is written, then a line is read;
    [EOFError] when there is none. *)
Definition input (prompt : output) : C string :=
  fun p =>
    match stdin p with
    | [] => (Died EOFError,
             {| stdin := []; stdout := stdout p ++ [prompt]; machine := machine p |})
    | line :: rest =>
        (Returned line,
         {| stdin := rest; stdout := stdout p ++ [prompt]; machine := machine p |})
    end.

Definition nl : string := String "010"%char EmptyString.

(** What a round prints when it renders its circuit:
    [print("\n--- Example Circuit ---")] and
    [print(qc.draw(output='text'))]. *)
Definition rendering (qc : QuantumCircuit) : list output :=
  [Text (nl ++ "--- Example Circuit ---"); Drawing qc].

(** What the protocol code has printed between the worlds [w] and [w']:
    the renderings of the circuits that [drawn] has gained. *)
Definition printed_by_rounds (w w' : world) : list output :=
  flat_map rendering (drop (length (drawn w)) (drawn w')).

(** A computation of the protocol code, run on the process's world;
    what it prints is appended to the standard output, also when it
    raises. *)
Definition run_on_machine {A} (m : M A) : C A :=
  fun p =>
    match m (machine p) with
    | (Ok a, w) =>
        (Returned a,
         {| stdin := stdin p;
            stdout := stdout p ++ printed_by_rounds (machine p) w;
            machine := w |})
    | (Raise e, w) =>
        (Died (Python e),
         {| stdin := stdin p;
            stdout := stdout p ++ printed_by_rounds (machine p) w;
            machine := w |})
    end.

Definition checked {A} (r : Py.result A) : C A :=
  fun p => match r with
           | Ok a => (Returned a, p)
           | Raise e => (Died (Python e), p)
           end.

(** [f"{qber:.3f}"]: a float is formatted, [None] is not
    ([TypeError: unsupported format string passed to NoneType]). *)
Definition format_3f (qber : option Q) : Py.result Q :=
  match qber with
  | Some q => Ok q
  | None => Raise TypeError
  end.

Section Main.

Variable str_strip_lower : string -> string.
Variable str_split : string -> list string.
Variable int_of_str : string -> Py.result Z.

Local Open Scope cli_scope.

(** [list(map(int, tokens))]: the first token that is no number raises. *)
Fixpoint map_int (tokens : list string) : Py.result (list Z) :=
  match tokens with
  | [] => Ok []
  | t :: rest =>
      match int_of_str t with
      | Ok z => match map_int rest with
                | Ok zs => Ok (z :: zs)
                | Raise e => Raise e
                end
      | Raise e => Raise e
      end
  end.

(** The dict built from what was typed. *)
Definition typed_inputs (bits : list Z) (a_bases b_bases : list string) : pyval :=
  PDict (<["alice_bits" := PList (AInt <$> bits)]>
         (<["alice_bases" := PList (AStr <$> a_bases)]>
          (<["bob_bases" := PList (AStr <$> b_bases)]> ∅))).

(** The questions: whether to use custom inputs, and then the number of
    bits and the three lines of values. Yields [num_rounds] and
    [custom_inputs]. *)
Definition read_inputs : C (Z * pyval) :=
  answer <-- input (Text "Do you want to provide custom inputs? (y/n): ") ;;
  let use_custom := str_strip_lower answer in
  if decide (use_custom = "y") then
    line <-- input (Text "Enter number of bits (e.g. 4): ") ;;
    n <-- checked (int_of_str line) ;;
    line <-- input (TextWithCount "Enter " n
                      " bits (0/1) for Alice, separated by spaces: ") ;;
    bits <-- checked (map_int (str_split line)) ;;
    line <-- input (TextWithCount "Enter " n
                      " bases (Z/X) for Alice, separated by spaces: ") ;;
    let a_bases := str_split line in
    line <-- input (TextWithCount "Enter " n
                      " bases (Z/X) for Bob, separated by spaces: ") ;;
    let b_bases := str_split line in
    cret (n, typed_inputs bits a_bases b_bases)
  else
    cret (8, PAtom ANone).

(** The two runs and what is printed about them. *)
Definition report (num_rounds : Z) (custom_inputs : pyval) : C unit :=
  print (Text (nl ++ "Running teleportation-based BB84 (honest)...")) ;;;;
  honest <-- run_on_machine (run_protocol num_rounds false custom_inputs) ;;
  q <-- checked (format_3f (qber honest)) ;;
  print (Summary "Honest" (raw_rounds honest) (sifted_length honest) q) ;;;;
  print (Text (nl ++ "Running teleportation-based BB84 (Eve intercept-resend)...")) ;;;;
  eve <-- run_on_machine (run_protocol num_rounds true custom_inputs) ;;
  q <-- checked (format_3f (qber eve)) ;;
  print (Summary "Eve" (raw_rounds eve) (sifted_length eve) q) ;;;;
  print (Text (nl ++ "Example Results (Honest):")) ;;;;
  print (Listing "Alice bits :" (alice_bits honest)) ;;;;
  print (Listing "Alice bases:" (alice_bases honest)) ;;;;
  print (Listing "Bob bases  :" (bob_bases honest)) ;;;;
  print (Listing "Bob results:" (AInt <$> bob_results honest)) ;;;;
  print (Text "Sifted key (same bases):") ;;;;
  print (Listing "Alice:" (sifted_alice honest)) ;;;;
  print (Listing "Bob  :" (AInt <$> sifted_bob honest)).

(** The body of [if __name__ == "__main__":]. *)
Definition main : C unit :=
  print (Text ("Teleportation-based BB84 Quantum Key Distribution Simulation" ++ nl)) ;;;;
  inputs <-- read_inputs ;;
  report (fst inputs) (snd inputs).

(** A session in which the user asks for custom inputs and types a
    number and three lines that convert. *)
Definition custom_session (p : process) (n : Z) (bits : list Z)
    (a_bases b_bases : list string) : Prop :=
  exists answer l1 l2 l3 l4 rest,
    stdin p = answer :: l1 :: l2 :: l3 :: l4 :: rest
    /\ str_strip_lower answer = "y"
    /\ int_of_str l1 = Ok n
    /\ map_int (str_split l2) = Ok bits
    /\ str_split l3 = a_bases
    /\ str_split l4 = b_bases.

End Main.

(** Conversions good for plain ASCII input, to run [main] on examples:
    no stripping and no case change, splitting at single spaces, and
    numbers of one decimal digit. *)
Fixpoint split_at_spaces (cur s : string) : list string :=
  match s with
  | EmptyString => if decide (cur = EmptyString) then [] else [cur]
  | String c rest =>
      if Ascii.eqb c " "%char
      then (if decide (cur = EmptyString) then [] else [cur]) ++ split_at_spaces "" rest
      else split_at_spaces (cur ++ String c EmptyString) rest
  end.

Definition one_digit (s : string) : Py.result Z :=
  match s with
  | String c EmptyString => int_of_char c
  | _ => Raise ValueError
  end.

Definition example_main : C unit :=
  main (fun s => s) (split_at_spaces "") one_digit.

Definition example_process (lines : list string) : process :=
  {| stdin := lines; stdout := []; machine := constant_world 0 0 |}.

(** A step of the command line that leaves the world alone. *)
Definition keeps_machine {A} (m : C A) : Prop :=
  forall p, machine (snd (m p)) = machine p.

Definition running_honest : output :=
  Text (nl ++ "Running teleportation-based BB84 (honest)...").

(** What has been printed when the questions of a custom session for
    [n] bits have been asked: the title and the five prompts. *)
Definition custom_session_prompts (n : Z) : list output :=
  [Text ("Teleportation-based BB84 Quantum Key Distribution Simulation" ++ nl);
   Text "Do you want to provide custom inputs? (y/n): ";
   Text "Enter number of bits (e.g. 4): ";
   TextWithCount "Enter " n " bits (0/1) for Alice, separated by spaces: ";
   TextWithCount "Enter " n " bases (Z/X) for Alice, separated by spaces: ";
   TextWithCount "Enter " n " bases (Z/X) for Bob, separated by spaces: "].

(** The honest run of one round in which Alice uses Z and Bob X. *)
Definition unsifted_run : ProtocolRun :=
  {| raw_rounds := 1; sifted_length := 0; qber := None;
     alice_bits := [AInt 1]; bob_results := [0];
     alice_bases := [AStr "Z"]; bob_bases := [AStr "X"];
     sifted_alice := []; sifted_bob := [] |}.

(** The circuits of honest rounds on the given bits and bases, round by
    round, as far as all three lists go. *)
Fixpoint honest_circuits (bits abases bbases : list atom) : list QuantumCircuit :=
  match bits, abases, bbases with
  | a :: bits', ab :: abases', bb :: bbases' =>
      round_circuit None a ab bb :: honest_circuits bits' abases' bbases'
  | _, _, _ => []
  end.

(** Between [w] and [w'] the circuits [js] were run, and the first of
    them was rendered if the flag was still set. *)
Definition first_job_rendered (w w' : world) (js : list QuantumCircuit) : Prop :=
  jobs w' = jobs w ++ js
  /\ drawn w' = drawn w ++ (if _DEBUG_CIRCUIT w then take 1 js else [])
  /\ _DEBUG_CIRCUIT w' = _DEBUG_CIRCUIT w && Nat.eqb (length js) 0.

(** One qubit of the register in the state with amplitudes [a0] and
    [a1], the other two in |0>. *)
Definition ket (q : nat) (a0 a1 : Z) : Sim.qstate :=
  Sim.tabulate (fun i => if Nat.eqb i 0 then a0
                         else if Nat.eqb i (2 ^ q) then a1 else 0).

Ltac case_conditions :=
  repeat match goal with
         | |- context [if Py.eq ?a ?b then _ else _] => destruct (Py.eq a b)
         end.

(** * Properties *)

(** ** What the backend can return *)

Lemma weight_nonneg (s : Sim.qstate) : 0 <= Sim.weight s.
Proof.
  induction s as [| a s IH]; simpl; [lia |].
  pose proof (Z.square_nonneg a). lia.
Qed.

Lemma outcomes_positive (qc : QuantumCircuit) :
  Forall (fun o => 0 < snd o) (Sim.outcomes qc).
Proof.
  apply List.Forall_forall. intros [cr wt] Hin.
  unfold Sim.outcomes in Hin. apply List.filter_In in Hin as [Hin Hnz].
  apply List.in_map_iff in Hin as (b & Hb & _).
  inversion Hb; subst. simpl in *.
  pose proof (weight_nonneg (Sim.state b)).
  destruct (Z.eqb_spec (Sim.weight (Sim.state b)) 0); [discriminate | lia].
Qed.

Lemma pick_In (os : list (list bool * Z)) (r : Z) (cr : list bool) :
  pick os r = Some cr -> exists wt, In (cr, wt) os.
Proof.
  revert r. induction os as [| [c wt] os IH]; intros r; simpl; [discriminate |].
  destruct (r <? wt).
  - intros [= <-]. exists wt. now left.
  - intros H. destruct (IH _ H) as [wt' Hin]. exists wt'. now right.
Qed.

Lemma pick_total (os : list (list bool * Z)) (r : Z) :
  Forall (fun o => 0 < snd o) os ->
  0 <= r < total_weight os ->
  exists cr, pick os r = Some cr.
Proof.
  intros Hpos. revert r.
  induction Hpos as [| [c wt] os Hwt Hpos IH]; intros r Hr; simpl in *; [lia |].
  destruct (Z.ltb_spec r wt); [eauto |].
  apply IH. lia.
Qed.

Lemma total_weight_positive (os : list (list bool * Z)) :
  Forall (fun o => 0 < snd o) os -> os <> [] -> 0 < total_weight os.
Proof.
  intros Hpos Hne. destruct Hpos as [| o os Ho Hpos]; [congruence |].
  simpl. assert (0 <= total_weight os); [| lia].
  clear -Hpos. induction Hpos; simpl; lia.
Qed.

(** A circuit with an observable outcome yields one on every shot, and
    only outcomes of non-zero weight are ever returned. *)
Lemma shot_total (qc : QuantumCircuit) (r : N) :
  Sim.outcomes qc <> [] -> exists cr, shot qc r = Some cr.
Proof.
  intros Hne. unfold shot.
  pose proof (outcomes_positive qc) as Hpos.
  apply pick_total; [assumption |].
  apply Z.mod_pos_bound. now apply total_weight_positive.
Qed.

Lemma shot_outcome (qc : QuantumCircuit) (r : N) (cr : list bool) :
  shot qc r = Some cr -> In cr (map fst (Sim.outcomes qc)).
Proof.
  intros H. apply pick_In in H as [wt Hin].
  apply List.in_map_iff. now exists (cr, wt).
Qed.

(** ** Reading Bob's bit off the key *)

Lemma remove_spaces_bits (bs : list bool) :
  remove_spaces (string_of_list_ascii (map bit_char bs))
  = string_of_list_ascii (map bit_char bs).
Proof.
  induction bs as [| b bs IH]; simpl; [reflexivity |].
  rewrite IH. now destruct b.
Qed.

Lemma last_char_bits (bs : list bool) (b : bool) :
  last_char (string_of_list_ascii (map bit_char (bs ++ [b]))) = Ok (bit_char b).
Proof.
  induction bs as [| b' bs IH]; simpl; [reflexivity |].
  rewrite IH.
  destruct (string_of_list_ascii (map bit_char (bs ++ [b]))) eqn:E; [| reflexivity].
  destruct bs; discriminate.
Qed.

(** The last character of the key is classical bit 0: for a register
    [c0 :: rest] the program reads [c0]. *)
Lemma key_last_is_slot_0 (c0 : bool) (rest : list bool) :
  match last_char (remove_spaces (counts_key (c0 :: rest))) with
  | Ok c => int_of_char c
  | Raise e => Raise e
  end = Ok (Z_of_bit c0).
Proof.
  unfold counts_key. simpl rev.
  rewrite remove_spaces_bits, last_char_bits. now destruct c0.
Qed.

(** ** The shape of a round *)

Lemma Qlt_half (u : N) :
  Qlt_bool (Z.of_N (u mod 2 ^ 53) # 2 ^ 53) (1 # 2) = eve_acts u.
Proof.
  unfold Qlt_bool, Qle_bool, eve_acts. simpl Qnum. simpl Qden.
  change (Z.pos (2 ^ 53)) with 9007199254740992.
  change (2 ^ 53)%N with 9007199254740992%N.
  change (2 ^ 52)%N with 4503599627370496%N.
  destruct (N.ltb_spec (u mod 9007199254740992) 4503599627370496);
    destruct (Z.leb_spec (1 * 9007199254740992)
                         (Z.of_N (u mod 9007199254740992) * 2)); simpl; try reflexivity; lia.
Qed.

Lemma random_choice_two {A} (a b : A) (w : world) :
  random_choice [a; b] w
  = (Ok (if N.even (py_random w (py_random_pos w)) then a else b), tick_random w).
Proof.
  unfold random_choice, bind, next_draw. simpl length.
  set (u := py_random w (py_random_pos w)).
  assert (Hm : (N.to_nat u mod 2)%nat = if N.even u then 0%nat else 1%nat).
  { destruct (N.even u) eqn:E.
    - apply N.even_spec in E as [k ->]. rewrite N2Nat.inj_mul.
      change (N.to_nat 2) with 2%nat. rewrite Nat.mul_comm. apply Nat.Div0.mod_mul.
    - assert (Ho : N.odd u = true) by (rewrite <- N.negb_even, E; reflexivity).
      apply N.odd_spec in Ho as [k ->]. rewrite N2Nat.inj_add, N2Nat.inj_mul.
      change (N.to_nat 2) with 2%nat. change (N.to_nat 1) with 1%nat.
      rewrite Nat.add_comm, Nat.mul_comm, Nat.Div0.mod_add. reflexivity. }
  change (length [a; b]) with 2%nat. rewrite Hm. now destruct (N.even u).
Qed.

Lemma prepare_bb84_state_app (qc : QuantumCircuit) (q : nat) (bit basis : atom) :
  prepare_bb84_state qc q bit basis = qc ++ prepare_bb84_state [] q bit basis.
Proof.
  unfold prepare_bb84_state, qc_h, qc_x.
  repeat match goal with |- context [if ?c then _ else _] => destruct c end;
    simpl; rewrite <- ?app_assoc, ?app_nil_r; reflexivity.
Qed.

Lemma bind_ok {A B} (m : M A) (k : A -> M B) (w w' : world) (a : A) :
  m w = (Ok a, w') -> bind m k w = k a w'.
Proof. intros H. unfold bind. now rewrite H. Qed.

Lemma bind_raise {A B} (m : M A) (k : A -> M B) (w w' : world) (e : exn) :
  m w = (Raise e, w') -> bind m k w = (Raise e, w').
Proof. intros H. unfold bind. now rewrite H. Qed.

Lemma eve_attack_draw (w : world) :
  (u <- random_random ;; ret (Qlt_bool u (1 # 2))) w
  = (Ok (eve_acts (py_random w (py_random_pos w))), tick_random w).
Proof.
  unfold bind, random_random, next_draw, ret, bind. now rewrite Qlt_half.
Qed.

Lemma read_out_tail (qc : QuantumCircuit) (a ab bb : atom) (w : world) :
  (draw_once qc ;;;
   result <- backend_run qc ;;
   key <- lift (max_key result) ;;
   c <- lift (last_char (remove_spaces key)) ;;
   measured_bit <- lift (int_of_char c) ;;
   ret (a, ab, bb, measured_bit)) w
  = (match fst (read_out qc w) with
     | Ok m => Ok (a, ab, bb, m)
     | Raise e => Raise e
     end, snd (read_out qc w)).
Proof.
  unfold read_out, bind, draw_once, backend_run, lift, ret.
  destruct (_DEBUG_CIRCUIT w); simpl;
    match goal with |- context [shot qc ?r] => destruct (shot qc r) end; simpl;
    try reflexivity;
    match goal with |- context [last_char ?k] => destruct (last_char k) end; simpl;
    try reflexivity;
    match goal with |- context [int_of_char ?c] => destruct (int_of_char c) end;
    reflexivity.
Qed.

(** [run_single_round] builds [round_circuit] for the eavesdropper's
    choice, hands it to the backend once, and reads the answer. *)
Lemma run_single_round_eq (alice_bit alice_basis bob_basis : atom) (use_eve : bool)
    (w : world) :
  run_single_round alice_bit alice_basis bob_basis use_eve w =
  let out := read_out (round_circuit (eve_decision use_eve w)
                         alice_bit alice_basis bob_basis)
                      (eve_ticks use_eve w) in
  (match fst out with
   | Ok m => Ok (alice_bit, alice_basis, bob_basis, m)
   | Raise e => Raise e
   end, snd out).
Proof.
  unfold run_single_round, eve_decision, eve_ticks. cbv zeta.
  destruct use_eve; simpl andb.
  - erewrite bind_ok by apply eve_attack_draw.
    destruct (eve_acts (py_random w (py_random_pos w))).
    + unfold bind at 1. unfold bind at 1. rewrite random_choice_two.
      unfold ret at 1. rewrite read_out_tail.
      simpl py_random. simpl py_random_pos.
      match goal with
      | |- (match fst (read_out ?q1 _) with _ => _ end, _) = _ =>
          replace q1 with (round_circuit
            (Some (if N.even (py_random w (S (py_random_pos w)))
                   then AStr "Z" else AStr "X")) alice_bit alice_basis bob_basis)
      end; [reflexivity |].
      unfold round_circuit.
      set (P := prepare_bb84_state [] 0 alice_bit alice_basis).
      rewrite prepare_bb84_state_app. fold P.
      unfold eve_ops, bell_pair, qc_measure, qc_h, qc_cx, qc_cz.
      destruct (N.even _); case_conditions; simpl; rewrite <- ?app_assoc; reflexivity.
    + erewrite bind_ok by reflexivity. rewrite read_out_tail.
      match goal with
      | |- (match fst (read_out ?q1 _) with _ => _ end, _) = _ =>
          replace q1 with (round_circuit None alice_bit alice_basis bob_basis)
      end; [reflexivity |].
      unfold round_circuit.
      set (P := prepare_bb84_state [] 0 alice_bit alice_basis).
      rewrite prepare_bb84_state_app. fold P.
      unfold eve_ops, bell_pair, qc_measure, qc_h, qc_cx, qc_cz.
      case_conditions; simpl; rewrite <- ?app_assoc; reflexivity.
  - erewrite bind_ok by reflexivity. erewrite bind_ok by reflexivity.
    rewrite read_out_tail.
    match goal with
    | |- (match fst (read_out ?q1 _) with _ => _ end, _) = _ =>
        replace q1 with (round_circuit None alice_bit alice_basis bob_basis)
    end; [reflexivity |].
    unfold round_circuit.
    set (P := prepare_bb84_state [] 0 alice_bit alice_basis).
    rewrite prepare_bb84_state_app. fold P.
    unfold eve_ops, bell_pair, qc_measure, qc_h, qc_cx, qc_cz.
    case_conditions; simpl; rewrite <- ?app_assoc; reflexivity.
Qed.

(** ** Every round gets an answer *)

Lemma step_creg_length (i : instruction) (b b' : Sim.branch) :
  length (Sim.creg b) = 3%nat -> In b' (Sim.step i b) -> length (Sim.creg b') = 3%nat.
Proof.
  intros Hlen Hin. destruct i; simpl in Hin;
    repeat (destruct Hin as [<- | Hin]; [simpl; rewrite ?length_insert; assumption |]);
    contradiction.
Qed.

Lemma run_creg_length (qc : QuantumCircuit) (b : Sim.branch) :
  In b (Sim.run qc) -> length (Sim.creg b) = 3%nat.
Proof.
  unfold Sim.run.
  set (start := [ {| Sim.creg := [false; false; false]; Sim.state := Sim.init |} ]).
  assert (Hstart : forall b0, In b0 start -> length (Sim.creg b0) = 3%nat).
  { intros b0 [<- | []]. reflexivity. }
  clearbody start. revert start Hstart b.
  induction qc as [| i qc IH]; intros start Hstart b; simpl; [apply Hstart |].
  apply IH. intros b0 Hb0. apply List.in_flat_map in Hb0 as (b1 & Hb1 & Hb0).
  eapply step_creg_length; eauto.
Qed.

Lemma shot_three_bits (qc : QuantumCircuit) (r : N) (cr : list bool) :
  shot qc r = Some cr -> exists c0 c1 c2, cr = [c0; c1; c2].
Proof.
  intros H. apply shot_outcome in H.
  apply List.in_map_iff in H as ([cr' wt] & Heq & Hin). simpl in Heq. subst cr'.
  unfold Sim.outcomes in Hin. apply List.filter_In in Hin as [Hin _].
  apply List.in_map_iff in Hin as (b & Hb & Hrun). inversion Hb; subst.
  apply run_creg_length in Hrun.
  destruct (Sim.creg b) as [| c0 [| c1 [| c2 [| ? ?]]]]; try discriminate. eauto.
Qed.

(** The circuit of a round always has an observable outcome. *)
Lemma round_circuit_observable (eve : option atom) (a ab bb : atom) :
  Sim.outcomes (round_circuit eve a ab bb) <> [].
Proof.
  unfold round_circuit, eve_ops, prepare_bb84_state.
  destruct eve; case_conditions; vm_compute; discriminate.
Qed.

Lemma read_out_world (qc : QuantumCircuit) (w : world) :
  jobs (snd (read_out qc w)) = jobs w ++ [qc]
  /\ py_random (snd (read_out qc w)) = py_random w
  /\ py_random_pos (snd (read_out qc w)) = py_random_pos w
  /\ backend_seed (snd (read_out qc w)) = backend_seed w
  /\ backend_pos (snd (read_out qc w)) = S (backend_pos w).
Proof. unfold read_out. destruct (_DEBUG_CIRCUIT w); simpl; auto. Qed.

(** What is read is classical bit 0 of the shot. *)
Lemma read_out_slot_0 (qc : QuantumCircuit) (w : world) :
  Sim.outcomes qc <> [] ->
  exists c0 c1 c2,
    shot qc (backend_seed w (backend_pos w)) = Some [c0; c1; c2]
    /\ fst (read_out qc w) = Ok (Z_of_bit c0).
Proof.
  intros Hobs.
  destruct (shot_total qc (backend_seed w (backend_pos w)) Hobs) as [cr Hcr].
  destruct (shot_three_bits _ _ _ Hcr) as (c0 & c1 & c2 & ->).
  exists c0, c1, c2. split; [assumption |].
  unfold read_out. cbv zeta.
  replace (backend_seed (if _DEBUG_CIRCUIT w then log_drawing qc w else w)
             (backend_pos (if _DEBUG_CIRCUIT w then log_drawing qc w else w)))
    with (backend_seed w (backend_pos w)) by (destruct (_DEBUG_CIRCUIT w); reflexivity).
  rewrite Hcr. cbn [fst]. apply key_last_is_slot_0.
Qed.

Lemma eve_ticks_world (use_eve : bool) (w : world) :
  jobs (eve_ticks use_eve w) = jobs w
  /\ py_random (eve_ticks use_eve w) = py_random w
  /\ backend_seed (eve_ticks use_eve w) = backend_seed w
  /\ backend_pos (eve_ticks use_eve w) = backend_pos w.
Proof.
  unfold eve_ticks. destruct use_eve; [destruct (eve_acts _) |]; simpl; auto.
Qed.

(** A round never raises: it returns its three inputs and the bit read
    from slot 0 of the shot, after exactly one backend job. *)
Lemma run_single_round_ok (a ab bb : atom) (use_eve : bool) (w : world) :
  exists c0 c1 c2,
    shot (round_circuit (eve_decision use_eve w) a ab bb)
         (backend_seed w (backend_pos w)) = Some [c0; c1; c2]
    /\ fst (run_single_round a ab bb use_eve w) = Ok (a, ab, bb, Z_of_bit c0)
    /\ jobs (snd (run_single_round a ab bb use_eve w))
       = jobs w ++ [round_circuit (eve_decision use_eve w) a ab bb].
Proof.
  rewrite run_single_round_eq. cbv zeta. cbn [fst snd].
  set (qc := round_circuit (eve_decision use_eve w) a ab bb).
  destruct (eve_ticks_world use_eve w) as (Hj & _ & Hs & Hp).
  destruct (read_out_slot_0 qc (eve_ticks use_eve w)) as (c0 & c1 & c2 & Hshot & Hres).
  { apply round_circuit_observable. }
  rewrite Hs, Hp in Hshot.
  exists c0, c1, c2. repeat split; [assumption | now rewrite Hres |].
  destruct (read_out_world qc (eve_ticks use_eve w)) as (-> & _). now rewrite Hj.
Qed.

(** The weights of the outcomes of a round add up to 2 to the number of
    Hadamards: the probabilities add up to 1. *)
Lemma round_circuit_total_weight (eve : option atom) (a ab bb : atom) :
  total_weight (Sim.outcomes (round_circuit eve a ab bb))
  = 2 ^ Z.of_nat (hadamards (round_circuit eve a ab bb)).
Proof.
  unfold round_circuit, eve_ops, prepare_bb84_state.
  destruct eve; case_conditions; vm_compute; reflexivity.
Qed.

(** ** The encoder *)

(** C7. For each of the four (bit, basis) pairs, [prepare_bb84_state]
    appends exactly the prescribed gates to the circuit: nothing for
    (0, Z); an X gate for (1, Z); an H gate for (0, X); an X gate and
    then an H gate for (1, X). *)
Theorem prepare_bb84_state_table (qc : QuantumCircuit) (q : nat) :
  prepare_bb84_state qc q (AInt 0) (AStr "Z") = qc
  /\ prepare_bb84_state qc q (AInt 1) (AStr "Z") = qc ++ [XGate q]
  /\ prepare_bb84_state qc q (AInt 0) (AStr "X") = qc ++ [HGate q]
  /\ prepare_bb84_state qc q (AInt 1) (AStr "X") = qc ++ [XGate q; HGate q].
Proof.
  unfold prepare_bb84_state, qc_h, qc_x. simpl.
  repeat split; try reflexivity. now rewrite <- app_assoc.
Qed.

(** On a fresh register the four preparations give |0>, |1>, |+>, |->
    on qubit 0 (amplitudes of the basis states 0 and 1, the Hadamard
    unnormalised). *)
Lemma prepared_states :
  let prepared bit basis :=
    Sim.state <$> Sim.run (prepare_bb84_state [] 0 bit basis) in
  prepared (AInt 0) (AStr "Z") = [[1; 0; 0; 0; 0; 0; 0; 0]]
  /\ prepared (AInt 1) (AStr "Z") = [[0; 1; 0; 0; 0; 0; 0; 0]]
  /\ prepared (AInt 0) (AStr "X") = [[1; 1; 0; 0; 0; 0; 0; 0]]
  /\ prepared (AInt 1) (AStr "X") = [[1; -1; 0; 0; 0; 0; 0; 0]].
Proof. repeat split; vm_compute; reflexivity. Qed.

Lemma eq_AStr_false (a : atom) (s : string) : a <> AStr s -> Py.eq a (AStr s) = false.
Proof.
  intros Hne. destruct a; simpl; try reflexivity.
  destruct (decide (s0 = s)); [congruence | reflexivity].
Qed.

(** C8. For every bit and every basis value other than 'Z' and 'X',
    [prepare_bb84_state] leaves the circuit as it was: no gate is
    added, whatever the bit. (The function has no raising path.) *)
Theorem prepare_bb84_state_unknown_basis (qc : QuantumCircuit) (q : nat)
    (bit basis : atom) :
  basis <> AStr "Z" -> basis <> AStr "X" ->
  prepare_bb84_state qc q bit basis = qc.
Proof.
  intros HZ HX. unfold prepare_bb84_state.
  now rewrite (eq_AStr_false _ _ HZ), (eq_AStr_false _ _ HX).
Qed.

Lemma prepare_bb84_state_unknown_basis_witness :
  prepare_bb84_state [HGate 1; CXGate 1 2] 0 (AInt 1) (AStr "Y") = [HGate 1; CXGate 1 2]
  /\ prepare_bb84_state [] 0 (AInt 0) ANone = [].
Proof.
  split.
  - apply (prepare_bb84_state_unknown_basis [HGate 1; CXGate 1 2] 0 (AInt 1) (AStr "Y"));
      discriminate.
  - apply (prepare_bb84_state_unknown_basis [] 0 (AInt 0) ANone); discriminate.
Defined.

(** ** Reading the receiver's bit *)

(** [max] returns a key of the mapping whose count no other exceeds. *)
Lemma max_from_maximal (best : string * nat) (rest : counts) :
  exists n, In (max_from best rest, n) (best :: rest)
            /\ Forall (fun kv => (snd kv <= n)%nat) (best :: rest).
Proof.
  revert best. induction rest as [| kv rest IH]; intros [k n]; simpl.
  - exists n. split; [now left | repeat constructor].
  - destruct (Nat.ltb_spec n (snd kv)) as [Hlt | Hge].
    + destruct (IH kv) as (m & Hin & Hall). exists m. split; [now right |].
      inversion Hall; subst. constructor; [simpl; lia | assumption].
    + destruct (IH (k, n)) as (m & Hin & Hall). exists m.
      inversion Hall; subst. simpl in *. split.
      * destruct Hin as [Hin | Hin]; [now left | now right; right].
      * constructor; [assumption |]. constructor; [lia | assumption].
Qed.

Lemma max_key_most_frequent (result : counts) (key : string) :
  max_key result = Ok key ->
  exists n, In (key, n) result /\ Forall (fun kv => (snd kv <= n)%nat) result.
Proof.
  destruct result as [| kv rest]; simpl; [discriminate |].
  intros [= <-]. apply max_from_maximal.
Qed.

(** [replace(' ', '')] keeps every character but the spaces. *)
Lemma remove_spaces_filter (key : string) :
  list_ascii_of_string (remove_spaces key)
  = List.filter (fun c => negb (Ascii.eqb c " "%char)) (list_ascii_of_string key).
Proof.
  induction key as [| c key IH]; simpl; [reflexivity |].
  destruct (Ascii.eqb c " "%char); simpl; now rewrite IH.
Qed.

(** The bit a round returns is [measured_bit_of_counts] of the counts
    the backend gave for that round's job. *)
Lemma read_out_measured_bit (qc : QuantumCircuit) (w : world) :
  let w1 := if _DEBUG_CIRCUIT w then log_drawing qc w else w in
  exists result,
    fst (backend_run qc w1) = Ok result
    /\ fst (read_out qc w) = measured_bit_of_counts result.
Proof.
  unfold read_out, backend_run, measured_bit_of_counts. cbv zeta. cbn [fst].
  eexists. split; [reflexivity |].
  match goal with |- context [shot qc ?r] => destruct (shot qc r) end; reflexivity.
Qed.

(** C2. From the counts of a round the program takes the most frequent
    key, strips the spaces and reads the last character. That character
    is classical bit 0 of the shot, so the bit a round returns is the
    one recorded in classical bit 0; it is not in general the one in
    classical bit 2, which the receiver's measurement writes: with
    Alice's bit 1 in basis Z and Bob measuring in Z, the shot
    [c0; c1; c2] = [0; 0; 1] (key "100") makes the round return 0. *)
Theorem measured_bit_is_classical_bit_0 :
  (forall c0 c1 c2 : bool,
      measured_bit_of_counts [(counts_key [c0; c1; c2], 1%nat)] = Ok (Z_of_bit c0))
  /\ (forall (a ab bb : atom) (use_eve : bool) (w : world),
      exists c0 c1 c2,
        shot (round_circuit (eve_decision use_eve w) a ab bb)
             (backend_seed w (backend_pos w)) = Some [c0; c1; c2]
        /\ fst (run_single_round a ab bb use_eve w) = Ok (a, ab, bb, Z_of_bit c0))
  /\ (let w := constant_world 0 0 in
      shot (round_circuit (eve_decision false w) (AInt 1) (AStr "Z") (AStr "Z"))
           (backend_seed w (backend_pos w)) = Some [false; false; true]
      /\ fst (run_single_round (AInt 1) (AStr "Z") (AStr "Z") false w)
         = Ok (AInt 1, AStr "Z", AStr "Z", 0)).
Proof.
  split; [| split].
  - intros c0 c1 c2. unfold measured_bit_of_counts. cbn [max_key max_from fst].
    apply key_last_is_slot_0.
  - intros a ab bb use_eve w.
    destruct (run_single_round_ok a ab bb use_eve w) as (c0 & c1 & c2 & Hs & Hr & _).
    eauto.
  - split; vm_compute; reflexivity.
Qed.

(** ** Noiseless rounds *)

(** In an honest round with equal bases the receiver's slot, classical
    bit 2, carries Alice's bit in every observable outcome. *)
Lemma teleported_bit_in_receiver_slot (b x : bool) :
  Forall (fun o => fst o !! receiver_slot = Some b)
         (Sim.outcomes (round_circuit None (bit_atom b) (basis_atom x) (basis_atom x))).
Proof. destruct b, x; vm_compute; repeat constructor. Qed.

(** Whatever the world, an honest round with equal bases gets a shot
    whose slot 2 is Alice's bit, and returns the shot's slot 0. *)
Lemma honest_round_shot (b x : bool) (w : world) :
  exists c0 c1,
    shot (round_circuit None (bit_atom b) (basis_atom x) (basis_atom x))
         (backend_seed w (backend_pos w)) = Some [c0; c1; b]
    /\ fst (run_single_round (bit_atom b) (basis_atom x) (basis_atom x) false w)
       = Ok (bit_atom b, basis_atom x, basis_atom x, Z_of_bit c0).
Proof.
  destruct (run_single_round_ok (bit_atom b) (basis_atom x) (basis_atom x) false w)
    as (c0 & c1 & c2 & Hs & Hr & _).
  change (eve_decision false w) with (@None atom) in Hs.
  exists c0, c1. split; [| exact Hr].
  pose proof (shot_outcome _ _ _ Hs) as Hin.
  apply List.in_map_iff in Hin as (o & Ho & Hin).
  pose proof (teleported_bit_in_receiver_slot b x) as Hall.
  rewrite List.Forall_forall in Hall. specialize (Hall o Hin).
  rewrite Ho in Hall. simpl in Hall. injection Hall as ->. exact Hs.
Qed.

(** C1. In an honest round with equal bases the receiver's slot always
    holds Alice's bit, but the bit the round returns is classical bit 0,
    which differs from Alice's bit on exactly half of the weight; there
    is a world in which [run_single_round] returns the complement of
    [alice_bit]. *)
Theorem honest_round_can_return_wrong_bit (b x : bool) :
  let qc := round_circuit None (bit_atom b) (basis_atom x) (basis_atom x) in
  Forall (fun o => fst o !! receiver_slot = Some b) (Sim.outcomes qc)
  /\ 2 * weight_where (fun cr => bool_decide (cr !! 0%nat = Some (negb b)))
                      (Sim.outcomes qc)
     = total_weight (Sim.outcomes qc)
  /\ fst (run_single_round (bit_atom b) (basis_atom x) (basis_atom x) false
            (constant_world 0 (if b then 0 else 11)))
     = Ok (bit_atom b, basis_atom x, basis_atom x, Z_of_bit (negb b)).
Proof.
  split; [apply teleported_bit_in_receiver_slot |].
  destruct b, x; split; vm_compute; reflexivity.
Qed.

(** ** The eavesdropper *)

Lemma eve_acts_half (k : N) :
  eve_acts (k mod 2 ^ 52) = true /\ eve_acts (k mod 2 ^ 52 + 2 ^ 52) = false.
Proof.
  unfold eve_acts.
  change (2 ^ 53)%N with 9007199254740992%N.
  change (2 ^ 52)%N with 4503599627370496%N.
  pose proof (N.mod_upper_bound k 4503599627370496) as Hk.
  assert (Hlt : (k mod 4503599627370496 < 4503599627370496)%N) by (apply Hk; discriminate).
  set (r := (k mod 4503599627370496)%N) in *.
  split.
  - rewrite (N.mod_small r) by lia. now apply N.ltb_lt.
  - rewrite (N.mod_small (r + 4503599627370496)) by lia. apply N.ltb_ge. lia.
Qed.

Lemma first_measure_attacked (eve_basis a ab bb : atom) :
  first_measure (round_circuit (Some eve_basis) a ab bb) = Some (sender_half, 0%nat).
Proof. unfold round_circuit, eve_ops. case_conditions; reflexivity. Qed.

Lemma run_single_round_random_pos (a ab bb : atom) (use_eve : bool) (w : world) :
  py_random_pos (snd (run_single_round a ab bb use_eve w))
  = (py_random_pos w
     + (if use_eve then if eve_acts (py_random w (py_random_pos w)) then 2 else 1
        else 0))%nat.
Proof.
  rewrite run_single_round_eq. cbv zeta. cbn [snd].
  destruct (read_out_world
              (round_circuit (eve_decision use_eve w) a ab bb)
              (eve_ticks use_eve w)) as (_ & _ & -> & _).
  unfold eve_ticks. destruct use_eve; [destruct (eve_acts _) |]; simpl; lia.
Qed.

Lemma run_single_round_world (a ab bb : atom) (use_eve : bool) (w : world) :
  let w' := snd (run_single_round a ab bb use_eve w) in
  let qc := round_circuit (eve_decision use_eve w) a ab bb in
  jobs w' = jobs w ++ [qc]
  /\ drawn w' = drawn w ++ (if _DEBUG_CIRCUIT w then [qc] else [])
  /\ _DEBUG_CIRCUIT w' = false
  /\ backend_pos w' = S (backend_pos w)
  /\ backend_seed w' = backend_seed w
  /\ py_random w' = py_random w.
Proof.
  cbv zeta. rewrite run_single_round_eq. cbv zeta. cbn [snd].
  set (qc := round_circuit (eve_decision use_eve w) a ab bb).
  assert (He : jobs (eve_ticks use_eve w) = jobs w
               /\ drawn (eve_ticks use_eve w) = drawn w
               /\ _DEBUG_CIRCUIT (eve_ticks use_eve w) = _DEBUG_CIRCUIT w
               /\ backend_pos (eve_ticks use_eve w) = backend_pos w
               /\ backend_seed (eve_ticks use_eve w) = backend_seed w
               /\ py_random (eve_ticks use_eve w) = py_random w).
  { unfold eve_ticks. destruct use_eve; [destruct (eve_acts _) |]; simpl; auto 10. }
  destruct He as (E1 & E2 & E3 & E4 & E5 & E6).
  unfold read_out. cbv zeta. cbn [snd]. rewrite E3.
  destruct (_DEBUG_CIRCUIT w); simpl; rewrite ?E1, ?E2, ?E4, ?E5, ?E6, ?app_nil_r;
    auto 10.
Qed.

(** C6 (as the code has it). In a round with [use_eve] the eavesdropper
    acts exactly when [random.random()] is below 0.5, which holds for 
    half of its 2^53 values; it then picks 'Z' or 'X' by a second
    draw, and adds to the circuit, right after the Bell pair, a
    measurement of qubit 1, the sender's half of the pair, into
    classical bit 0, with a Hadamard on qubit 1 before and after it
    exactly when the pick is 'X'. Without [use_eve] nothing is added
    and nothing is drawn. *)
Theorem eavesdropper_measures_sender_half (a ab bb : atom) (use_eve : bool)
    (w : world) :
  let w' := snd (run_single_round a ab bb use_eve w) in
  let u := py_random w (py_random_pos w) in
  let v := py_random w (S (py_random_pos w)) in
  let eve :=
    if use_eve && eve_acts u
    then Some (if N.even v then AStr "Z" else AStr "X") else None in
  jobs w' = jobs w ++ [round_circuit eve a ab bb]
  /\ py_random_pos w'
     = (py_random_pos w + (if use_eve then if eve_acts u then 2 else 1 else 0))%nat
  /\ eve_ops None = []
  /\ eve_ops (Some (AStr "Z")) = [Measure sender_half 0]
  /\ eve_ops (Some (AStr "X"))
     = [HGate sender_half; Measure sender_half 0; HGate sender_half]
  /\ (forall eve_basis,
        first_measure (round_circuit (Some eve_basis) a ab bb) = Some (sender_half, 0%nat))
  /\ (forall k, eve_acts (k mod 2 ^ 52) = true
                /\ eve_acts (k mod 2 ^ 52 + 2 ^ 52) = false).
Proof.
  cbv zeta.
  destruct (run_single_round_ok a ab bb use_eve w) as (_ & _ & _ & _ & _ & Hjobs).
  split; [exact Hjobs |].
  split; [apply run_single_round_random_pos |].
  do 3 (split; [reflexivity |]).
  split; [intros eve_basis; apply first_measure_attacked |].
  apply eve_acts_half.
Qed.

(** In the round below the eavesdropper acts and measures in Z; the
    first measurement of the circuit is on qubit 1, the sender's half,
    and not on qubit 2, the receiver's. *)
Lemma eavesdropper_not_on_receiver_half :
  let w := constant_world 0 0 in
  eve_decision true w = Some (AStr "Z")
  /\ jobs (snd (run_single_round (AInt 0) (AStr "Z") (AStr "Z") true w))
     = [[HGate 1; CXGate 1 2; Measure 1 0; CXGate 0 1; HGate 0; Measure 0 0;
         Measure 1 1; CXGate 1 2; CZGate 0 2; Measure 2 2]]
  /\ ~ (forall (a ab bb : atom) (w : world) (qc : QuantumCircuit),
          eve_decision true w <> None ->
          jobs (snd (run_single_round a ab bb true w)) = jobs w ++ [qc] ->
          first_measure qc = Some (receiver_half, 0%nat)).
Proof.
  cbv zeta. split; [vm_compute; reflexivity |]. split; [vm_compute; reflexivity |].
  intros H.
  specialize (H (AInt 0) (AStr "Z") (AStr "Z") (constant_world 0 0) _
                ltac:(vm_compute; discriminate) ltac:(vm_compute; reflexivity)).
  vm_compute in H. discriminate H.
Qed.

(** ** The collecting loop *)

Lemma collect_cons (use_eve : bool) (ci : pyval) (i : nat) (range : list nat)
    (acc : collected) (w : world) :
  collect use_eve ci (i :: range) acc w =
  match round_inputs ci i w with
  | (Ok (a_bit, a_basis, b_basis), w1) =>
      match run_single_round a_bit a_basis b_basis use_eve w1 with
      | (Ok (_, _, _, b_meas), w2) =>
          collect use_eve ci range
            {| c_alice_bits := c_alice_bits acc ++ [a_bit];
               c_alice_bases := c_alice_bases acc ++ [a_basis];
               c_bob_bases := c_bob_bases acc ++ [b_basis];
               c_bob_results := c_bob_results acc ++ [b_meas] |} w2
      | (Raise e, w2) => (Raise e, w2)
      end
  | (Raise e, w1) => (Raise e, w1)
  end.
Proof.
  simpl. unfold bind.
  destruct (round_inputs ci i w) as [[[[a_bit a_basis] b_basis] | e] w1]; [| reflexivity].
  destruct (run_single_round a_bit a_basis b_basis use_eve w1)
    as [[[[[? ?] ?] b_meas] | e] w2]; reflexivity.
Qed.

(** Each completed iteration appends one element to each of the four
    lists. *)
Lemma collect_lengths (use_eve : bool) (ci : pyval) (range : list nat) :
  forall (acc acc' : collected) (w w' : world) (n : nat),
    same_lengths acc n ->
    collect use_eve ci range acc w = (Ok acc', w') ->
    same_lengths acc' (n + length range).
Proof.
  induction range as [| i range IH]; intros acc acc' w w' n Hlen Hrun.
  - simpl in Hrun. unfold ret in Hrun. inversion Hrun; subst.
    simpl. now rewrite Nat.add_0_r.
  - rewrite collect_cons in Hrun.
    destruct (round_inputs ci i w) as [[[[a_bit a_basis] b_basis] | e] w1];
      [| discriminate].
    destruct (run_single_round a_bit a_basis b_basis use_eve w1)
      as [[[[[? ?] ?] b_meas] | e] w2]; [| discriminate].
    apply IH with (n := S n) in Hrun.
    + simpl length. now rewrite Nat.add_succ_r.
    + destruct Hlen as (H1 & H2 & H3 & H4).
      unfold same_lengths. simpl. rewrite !length_app. simpl. lia.
Qed.

(** A completed run is the record built from what the loop collected. *)
Lemma run_protocol_completed (num_rounds : Z) (use_eve : bool) (ci : pyval)
    (w w' : world) (r : ProtocolRun) :
  run_protocol num_rounds use_eve ci w = (Ok r, w') ->
  exists acc,
    collect use_eve ci (seq 0 (Z.to_nat num_rounds)) empty_collected w = (Ok acc, w')
    /\ same_lengths acc (Z.to_nat num_rounds)
    /\ raw_rounds r = num_rounds
    /\ alice_bits r = c_alice_bits acc
    /\ alice_bases r = c_alice_bases acc
    /\ bob_bases r = c_bob_bases acc
    /\ bob_results r = c_bob_results acc
    /\ (sifted_alice r, sifted_bob r)
       = sift (zip4 (c_alice_bases acc) (c_alice_bits acc)
                    (c_bob_bases acc) (c_bob_results acc))
    /\ sifted_length r = length (sifted_alice r)
    /\ qber r = if Nat.eqb (length (sifted_alice r)) 0 then None
                else Some (int_truediv (count_errors (sifted_alice r) (sifted_bob r))
                                       (Z.of_nat (length (sifted_alice r)))).
Proof.
  unfold run_protocol, bind. fold empty_collected.
  destruct (collect use_eve ci (seq 0 (Z.to_nat num_rounds)) empty_collected w)
    as [[acc | e] w1] eqn:Hc; [| discriminate].
  unfold ret. intros H. inversion H; subst. clear H. exists acc.
  split; [reflexivity |]. split.
  { apply collect_lengths with (n := 0%nat) in Hc.
    - now rewrite length_seq in Hc.
    - now repeat split. }
  cbn [raw_rounds alice_bits alice_bases bob_bases bob_results sifted_alice
       sifted_bob sifted_length qber].
  repeat (split; [reflexivity |]).
  split; [now destruct (sift _) | split; reflexivity].
Qed.

(** ** Sifting *)

Lemma sift_fold (rows : list (atom * atom * atom * Z)) (acc : list atom * list Z) :
  fold_left
    (fun (acc : list atom * list Z) (row : atom * atom * atom * Z) =>
       let '(a_b, a_k, b_b, b_m) := row in
       if Py.eq a_b b_b then (fst acc ++ [a_k], snd acc ++ [b_m]) else acc)
    rows acc
  = (fst acc ++ map alice_key (List.filter agree_row rows),
     snd acc ++ map bob_key (List.filter agree_row rows)).
Proof.
  revert acc. induction rows as [| [[[a_b a_k] b_b] b_m] rows IH]; intros [sa sb].
  - simpl. now rewrite !app_nil_r.
  - simpl. destruct (Py.eq a_b b_b); rewrite IH; simpl; [| reflexivity].
    now rewrite <- !app_assoc.
Qed.

Lemma sift_spec (rows : list (atom * atom * atom * Z)) :
  sift rows = (map alice_key (List.filter agree_row rows),
               map bob_key (List.filter agree_row rows)).
Proof. unfold sift. now rewrite sift_fold. Qed.

Lemma filter_map_S (P : nat -> bool) (l : list nat) :
  List.filter P (map S l) = map S (List.filter (fun i => P (S i)) l).
Proof.
  induction l as [| i l IH]; simpl; [reflexivity |].
  destruct (P (S i)); simpl; now rewrite IH.
Qed.

Lemma omap_map_S {A} (f : nat -> option A) (l : list nat) :
  omap f (map S l) = omap (fun i => f (S i)) l.
Proof.
  induction l as [| i l IH]; simpl; [reflexivity |].
  destruct (f (S i)); [f_equal |]; exact IH.
Qed.

Lemma omap_cons {A B} (f : A -> option B) (x : A) (l : list A) :
  omap f (x :: l) = match f x with Some y => y :: omap f l | None => omap f l end.
Proof. reflexivity. Qed.

(** The rows kept by the sifting loop are the rounds whose bases agree,
    in round order. *)
Lemma kept_rows_by_index (ab ak bb : list atom) (bm : list Z) :
  forall n, length ab = n -> length ak = n -> length bb = n -> length bm = n ->
  map alice_key (List.filter agree_row (zip4 ab ak bb bm))
  = omap (fun i => ak !! i) (List.filter (agree_at ab bb) (seq 0 n))
  /\ map bob_key (List.filter agree_row (zip4 ab ak bb bm))
     = omap (fun i => bm !! i) (List.filter (agree_at ab bb) (seq 0 n)).
Proof.
  revert ak bb bm.
  induction ab as [| a ab IH]; intros [| k ak] [| b bb] [| m bm] n H1 H2 H3 H4;
    subst n; try discriminate; [now split |].
  injection H2 as H2. injection H3 as H3. injection H4 as H4.
  destruct (IH ak bb bm (length ab) eq_refl H2 H3 H4) as [IHa IHb].
  cbn [length seq zip4 List.filter agree_row].
  rewrite <- seq_shift, filter_map_S.
  change (agree_at (a :: ab) (b :: bb) 0) with (Py.eq a b).
  change (fun i => agree_at (a :: ab) (b :: bb) (S i)) with (agree_at ab bb).
  destruct (Py.eq a b).
  - rewrite !omap_cons. cbn [map alice_key bob_key]. rewrite !omap_map_S.
    change (fun i => (k :: ak) !! S i) with (fun i => ak !! i).
    change (fun i => (m :: bm) !! S i) with (fun i => bm !! i).
    change ((k :: ak) !! 0%nat) with (Some k).
    change ((m :: bm) !! 0%nat) with (Some m).
    now rewrite IHa, IHb.
  - rewrite !omap_map_S.
    change (fun i => (k :: ak) !! S i) with (fun i => ak !! i).
    change (fun i => (m :: bm) !! S i) with (fun i => bm !! i).
    now rewrite IHa, IHb.
Qed.

Lemma kept_rows_length (ab ak bb : list atom) (bm : list Z) (n : nat) :
  length ab = n -> length ak = n -> length bb = n -> length bm = n ->
  length (List.filter agree_row (zip4 ab ak bb bm))
  = length (List.filter (agree_at ab bb) (seq 0 n)).
Proof.
  revert ak bb bm n.
  induction ab as [| a ab IH]; intros [| k ak] [| b bb] [| m bm] n H1 H2 H3 H4;
    subst n; try discriminate; [reflexivity |].
  injection H2 as H2. injection H3 as H3. injection H4 as H4.
  cbn [length seq zip4 List.filter agree_row].
  rewrite <- seq_shift, filter_map_S.
  change (agree_at (a :: ab) (b :: bb) 0) with (Py.eq a b).
  change (fun i => agree_at (a :: ab) (b :: bb) (S i)) with (agree_at ab bb).
  destruct (Py.eq a b); cbn [length]; rewrite ?length_map;
    erewrite IH by eauto; reflexivity.
Qed.

Lemma sifted_keys_same_length (num_rounds : Z) (use_eve : bool) (custom_inputs : pyval)
    (w w' : world) (r : ProtocolRun) :
  run_protocol num_rounds use_eve custom_inputs w = (Ok r, w') ->
  length (sifted_alice r) = length (sifted_bob r).
Proof.
  intros Hrun.
  destruct (run_protocol_completed _ _ _ _ _ _ Hrun)
    as (acc & _ & _ & _ & _ & _ & _ & _ & Hs & _).
  rewrite sift_spec in Hs. injection Hs as -> ->. now rewrite !length_map.
Qed.

(** C3. In every completed run the two sifted keys have the same length,
    which is the number of rounds [i] with
    [alice_bases[i] == bob_bases[i]] (and is what [sifted_length]
    reports); the keys are Alice's bits and Bob's results of exactly
    those rounds, in round order. *)
Theorem sifting_invariant (num_rounds : Z) (use_eve : bool) (custom_inputs : pyval)
    (w w' : world) (r : ProtocolRun) :
  run_protocol num_rounds use_eve custom_inputs w = (Ok r, w') ->
  length (sifted_alice r) = length (sifted_bob r)
  /\ length (sifted_alice r) = length (matching_rounds r)
  /\ sifted_length r = length (matching_rounds r)
  /\ sifted_alice r = omap (fun i => alice_bits r !! i) (matching_rounds r)
  /\ sifted_bob r = omap (fun i => bob_results r !! i) (matching_rounds r)
  /\ matching_rounds r
     = List.filter (bases_agree r) (seq 0 (Z.to_nat num_rounds))
  /\ length (alice_bases r) = Z.to_nat num_rounds
  /\ length (bob_bases r) = Z.to_nat num_rounds.
Proof.
  intros Hrun.
  destruct (run_protocol_completed _ _ _ _ _ _ Hrun)
    as (acc & _ & (L1 & L2 & L3 & L4) & Hn & Hab & Habs & Hbbs & Hbr & Hs & Hsl & _).
  rewrite sift_spec in Hs. injection Hs as Hsa Hsb.
  assert (Hm : matching_rounds r
               = List.filter (agree_at (c_alice_bases acc) (c_bob_bases acc))
                             (seq 0 (Z.to_nat num_rounds))).
  { unfold matching_rounds. rewrite Hn. apply List.filter_ext. intros i.
    unfold bases_agree, agree_at. now rewrite Habs, Hbbs. }
  pose proof (kept_rows_by_index _ _ _ _ _ L2 L1 L3 L4) as [Ka Kb].
  pose proof (kept_rows_length _ _ _ _ _ L2 L1 L3 L4) as Kl.
  assert (Hla : length (sifted_alice r) = length (matching_rounds r)).
  { rewrite Hsa, length_map, Hm. exact Kl. }
  split; [now rewrite Hsa, Hsb, !length_map |].
  split; [exact Hla |].
  split; [now rewrite Hsl |].
  split; [now rewrite Hsa, Hab, Hm |].
  split; [now rewrite Hsb, Hbr, Hm |].
  split; [unfold matching_rounds; now rewrite Hn |].
  now rewrite Habs, Hbbs.
Qed.

(** ** The error rate *)

Lemma count_errors_filter (sa : list atom) (sb : list Z) :
  count_errors sa sb
  = Z.of_nat (length (List.filter (fun xy : atom * Z => Py.ne (fst xy) (AInt (snd xy)))
                                  (zip sa sb))).
Proof.
  unfold count_errors.
  induction (zip sa sb) as [| [x y] l IH]; [reflexivity |].
  cbn [flat_map List.filter fst snd]. destruct (Py.ne x (AInt y)).
  - cbn [app fold_right length]. rewrite IH. lia.
  - exact IH.
Qed.

Lemma differing_by_index (sa : list atom) (sb : list Z) :
  length sa = length sb ->
  length (List.filter (fun xy : atom * Z => Py.ne (fst xy) (AInt (snd xy))) (zip sa sb))
  = length (List.filter (differ_at sa sb) (seq 0 (length sa))).
Proof.
  revert sb. induction sa as [| x sa IH]; intros [| y sb] Hlen;
    try discriminate; [reflexivity |].
  injection Hlen as Hlen.
  cbn [zip_with length seq List.filter fst snd].
  rewrite <- seq_shift, filter_map_S.
  change (differ_at (x :: sa) (y :: sb) 0) with (Py.ne x (AInt y)).
  change (fun i => differ_at (x :: sa) (y :: sb) (S i)) with (differ_at sa sb).
  destruct (Py.ne x (AInt y)); cbn [length]; rewrite ?length_map, IH by assumption;
    reflexivity.
Qed.

(** The quotient scaled by [2^k0], with [k0] the exponent before it is
    capped, has 53 bits. *)
Lemma float_exponent_binade (e l : Z) :
  0 < e <= l ->
  let d := Z.log2 l - Z.log2 e in
  let k0 := if l <=? e * 2 ^ d then 52 + d else 53 + d in
  0 <= d /\ 52 <= k0 /\ 2 ^ 52 * l <= e * 2 ^ k0 < 2 ^ 53 * l.
Proof.
  intros [He Hl]. cbv zeta.
  assert (Hlpos : 0 < l) by lia.
  destruct (Z.log2_spec e He) as [Ea1 Ea2].
  destruct (Z.log2_spec l Hlpos) as [Eb1 Eb2].
  pose proof (Z.log2_nonneg e) as Ha0.
  pose proof (Z.log2_le_mono e l Hl) as Hmono.
  set (a := Z.log2 e) in *. set (b := Z.log2 l) in *.
  assert (Hd : 0 <= b - a) by lia.
  assert (Hpow : 2 ^ b = 2 ^ a * 2 ^ (b - a)).
  { rewrite <- Z.pow_add_r by lia. f_equal. lia. }
  assert (Hsucc : forall x, 0 <= x -> 2 ^ Z.succ x = 2 * 2 ^ x)
    by (intros; apply Z.pow_succ_r; assumption).
  rewrite Hsucc in Ea2, Eb2 by lia.
  assert (Hpd : 0 < 2 ^ (b - a)) by (apply Z.pow_pos_nonneg; lia).
  assert (Hlo : 2 ^ b <= e * 2 ^ (b - a)) by nia.
  assert (Hhi : e * 2 ^ (b - a) < 2 * 2 ^ b) by nia.
  split; [exact Hd |].
  destruct (Z.leb_spec l (e * 2 ^ (b - a))) as [Hge | Hlt].
  - split; [lia |]. rewrite Z.pow_add_r by lia.
    assert (0 < 2 ^ 52) by (apply Z.pow_pos_nonneg; lia).
    change (2 ^ 53) with (2 * 2 ^ 52). nia.
  - split; [lia |]. rewrite Z.pow_add_r by lia.
    assert (0 < 2 ^ 52) by (apply Z.pow_pos_nonneg; lia).
    change (2 ^ 53) with (2 * 2 ^ 52) at 1. nia.
Qed.

(** The rounding step: [m'] is an integer nearest to [n / l], the even
    one of two. *)
Lemma round_half_even (n l : Z) :
  0 <= n -> 0 < l ->
  let m := n / l in
  let r := n mod l in
  let m' := if (l <? 2 * r) || ((l =? 2 * r) && Z.odd m) then m + 1 else m in
  m <= m' <= m + 1
  /\ 2 * Z.abs (m' * l - n) <= l
  /\ (2 * Z.abs (m' * l - n) = l -> Z.even m' = true)
  /\ (m' = m + 1 -> l <= 2 * r).
Proof.
  intros Hn Hl. cbv zeta.
  pose proof (Z.div_mod n l ltac:(lia)) as Hdm.
  pose proof (Z.mod_pos_bound n l Hl) as Hr.
  set (m := n / l) in *. set (r := n mod l) in *.
  assert (Hml : m * l = n - r) by lia.
  destruct (Z.ltb_spec l (2 * r)) as [H1 | H1]; cbn [orb].
  - split; [lia |]. split; [nia |]. split; [intros Ht; exfalso; nia | lia].
  - destruct (Z.eqb_spec l (2 * r)) as [H2 | H2]; cbn [andb].
    + destruct (Z.odd m) eqn:Ho.
      * split; [lia |]. split; [nia |]. split; [| lia].
        intros _. rewrite Z.even_add, <- Z.negb_odd, Ho. reflexivity.
      * split; [lia |]. split; [nia |]. split; [| lia].
        intros _. now rewrite <- Z.negb_odd, Ho.
    + split; [lia |]. split; [nia |]. split; [intros Ht; exfalso; nia | lia].
Qed.

(** Exponent and significand of the quotient of a count by a length. *)
Lemma int_truediv_parts (e l : Z) :
  0 < e <= l ->
  let k := float_exponent e l in
  let m := float_mantissa e l in
  52 <= k <= 1074
  /\ 0 <= m <= 2 ^ k
  /\ (2 ^ 52 * l <= e * 2 ^ k < 2 ^ 53 * l \/ k = 1074 /\ e * 2 ^ k < 2 ^ 52 * l)
  /\ 2 * Z.abs (m * l - e * 2 ^ k) <= l
  /\ (2 * Z.abs (m * l - e * 2 ^ k) = l -> Z.even m = true)
  /\ (e = l -> m = 2 ^ k)
  /\ (l < 2 ^ 53 -> 2 ^ 52 <= m /\ (m = 2 ^ k -> e = l)).
Proof.
  intros Hel. cbv zeta.
  destruct (float_exponent_binade e l Hel) as (Hd & Hk0 & Hlo & Hhi). cbv zeta in *.
  unfold float_mantissa, float_exponent.
  set (d := Z.log2 l - Z.log2 e) in *.
  set (k0 := if l <=? e * 2 ^ d then 52 + d else 53 + d) in *.
  set (k := Z.min 1074 k0).
  assert (Hk : 52 <= k <= 1074 /\ k <= k0) by (unfold k; lia).
  assert (Hpk : 0 < 2 ^ k) by (apply Z.pow_pos_nonneg; lia).
  assert (Hl : 0 < l) by lia.
  assert (Hn : 0 <= e * 2 ^ k) by nia.
  destruct (round_half_even (e * 2 ^ k) l Hn Hl) as (Hm & Herr & Htie & Hup).
  cbv zeta in *.
  pose proof (Z.div_mod (e * 2 ^ k) l ltac:(lia)) as Hdm.
  pose proof (Z.mod_pos_bound (e * 2 ^ k) l Hl) as Hr.
  set (m := (e * 2 ^ k) / l) in *. set (r := (e * 2 ^ k) mod l) in *.
  set (m' := if (l <? 2 * r) || ((l =? 2 * r) && Z.odd m) then m + 1 else m) in *.
  assert (H53 : 0 < 2 ^ 53) by (apply Z.pow_pos_nonneg; lia).
  assert (H52 : 0 < 2 ^ 52) by (apply Z.pow_pos_nonneg; lia).
  assert (Hm0 : 0 <= m) by (apply Z.div_pos; lia).
  assert (Hmk : m <= 2 ^ k).
  { apply Z.div_le_upper_bound; [lia |]. nia. }
  assert (Hm'k : m' <= 2 ^ k).
  { destruct (Z.eq_dec m (2 ^ k)) as [E | E]; [| lia].
    assert (r = 0) by nia.
    destruct (Z.eq_dec m' m); [lia |].
    assert (Hs : m' = m + 1) by lia. specialize (Hup Hs). lia. }
  assert (Hnorm : k = k0 -> 2 ^ 52 <= m).
  { intros E. apply Z.div_le_lower_bound; [lia |]. rewrite E. lia. }
  split; [lia |].
  split; [split; [apply Z.le_trans with m; [exact Hm0 | apply Hm] | exact Hm'k] |].
  split.
  { destruct (Z.eq_dec k k0) as [E | E]; [left; rewrite E; lia | right].
    assert (Hk74 : k = 1074) by (unfold k in *; lia). split; [exact Hk74 |].
    assert (Hp : 2 ^ k0 = 2 ^ k * 2 ^ (k0 - k)).
    { rewrite <- Z.pow_add_r by lia. f_equal. lia. }
    assert (2 ^ 1 <= 2 ^ (k0 - k)) by (apply Z.pow_le_mono_r; lia).
    change (2 ^ 1) with 2 in *. change (2 ^ 53) with (2 * 2 ^ 52) in Hhi. nia. }
  split; [exact Herr |]. split; [exact Htie |].
  split.
  { intros E. subst l.
    assert (Hmm : m = 2 ^ k /\ r = 0).
    { unfold m, r. split.
      - symmetry. apply (Z.div_unique_pos (e * 2 ^ k) e (2 ^ k) 0); lia.
      - symmetry. apply (Z.mod_unique_pos (e * 2 ^ k) e (2 ^ k) 0); lia. }
    destruct Hmm as [Em Er].
    destruct (Z.eq_dec m' m) as [Es | Es]; [now rewrite Es |].
    assert (Hs : m' = m + 1) by lia. specialize (Hup Hs). lia. }
  intros Hsmall.
  assert (Hd52 : d <= 52).
  { unfold d. pose proof (Z.log2_nonneg e).
    assert (Z.log2 l < 53); [| lia].
    apply Z.log2_lt_pow2; lia. }
  assert (Hk0s : k0 <= 105) by (unfold k0; destruct (l <=? e * 2 ^ d); lia).
  assert (Hkk : k = k0) by (unfold k; lia).
  split; [specialize (Hnorm Hkk); lia |].
  intros E. destruct (Z.eq_dec e l) as [| Hne]; [assumption | exfalso].
  assert (Hlt : e < l) by lia.
  assert (Hk53 : 53 <= k).
  { rewrite Hkk. unfold k0. destruct (Z.leb_spec l (e * 2 ^ d)) as [Hge |]; [| lia].
    destruct (Z.eq_dec d 0) as [E0 | ]; [| lia].
    rewrite E0 in Hge. simpl in Hge. lia. }
  assert (Hp53 : 2 ^ 53 <= 2 ^ k) by (apply Z.pow_le_mono_r; lia).
  assert (Hmlt : m < 2 ^ k).
  { apply Z.div_lt_upper_bound; [lia |]. nia. }
  assert (Hs : m' = m + 1) by lia.
  specialize (Hup Hs).
  assert (2 ^ k * (l - e) = l - r) by nia.
  nia.
Qed.

(** The float quotient of a count by a length is the binary64 number
    nearest to the exact quotient, and lies between 0 and 1. *)
Lemma int_truediv_nearest (e l : Z) :
  0 <= e <= l -> 0 < l ->
  nearest_binary64 (int_truediv e l) e l
  /\ (0 <= int_truediv e l)%Q /\ (int_truediv e l <= 1)%Q.
Proof.
  intros Hel Hl. unfold int_truediv.
  destruct (Z.eqb_spec e 0) as [-> | Hne].
  - split; [| split; [apply Qle_refl | discriminate]].
    exists 0, 1074. split; [reflexivity |]. split; [lia |].
    split; [right; split; [reflexivity |]; simpl; lia |].
    split; [rewrite Z.abs_eq; lia | intros _; reflexivity].
  - destruct (int_truediv_parts e l ltac:(lia)) as (Hk & Hm & Hb & Herr & Htie & _ & _).
    cbv zeta in *.
    set (k := float_exponent e l) in *. set (m := float_mantissa e l) in *.
    assert (Hpk : 0 < 2 ^ k) by (apply Z.pow_pos_nonneg; lia).
    split.
    + exists m, k. split; [reflexivity |]. split; [lia |]. now repeat split.
    + unfold Qle. cbn [Qnum Qden]. rewrite Z2Pos.id by exact Hpk. lia.
Qed.

(** Below [2^53] positions, the float quotient is 0 or 1 only when the
    exact one is. *)
Lemma int_truediv_extremes (e l : Z) :
  0 <= e <= l -> 0 < l ->
  (e = 0 -> (int_truediv e l == 0)%Q)
  /\ (e = l -> (int_truediv e l == 1)%Q)
  /\ (l < 2 ^ 53 ->
      ((int_truediv e l == 0)%Q -> e = 0) /\ ((int_truediv e l == 1)%Q -> e = l)).
Proof.
  intros Hel Hl. unfold int_truediv.
  destruct (Z.eqb_spec e 0) as [-> | Hne].
  - split; [reflexivity |]. split; [lia |]. intros _. split; [reflexivity |].
    intros H. discriminate H.
  - destruct (int_truediv_parts e l ltac:(lia)) as (Hk & Hm & _ & _ & _ & Hone & Hs).
    cbv zeta in *.
    set (k := float_exponent e l) in *. set (m := float_mantissa e l) in *.
    assert (Hpk : 0 < 2 ^ k) by (apply Z.pow_pos_nonneg; lia).
    assert (H52 : 0 < 2 ^ 52) by (apply Z.pow_pos_nonneg; lia).
    unfold Qeq. cbn [Qnum Qden]. rewrite Z2Pos.id by exact Hpk.
    split; [lia |]. split.
    + intros E. rewrite (Hone E). lia.
    + intros Hsmall. destruct (Hs Hsmall) as [Hm52 Himp]. split; [lia |].
      intros H. apply Himp. lia.
Qed.

(** Beyond [2^53] positions the float quotient can be 1 although the
    exact one is not. *)
Lemma int_truediv_rounds_to_one :
  (int_truediv (2 ^ 54 - 1) (2 ^ 54) == 1)%Q.
Proof. vm_compute. reflexivity. Qed.

Lemma int_truediv_thirds :
  int_truediv 1 3 = (6004799503160661 # 18014398509481984)%Q
  /\ int_truediv 2 3 = (6004799503160661 # 9007199254740992)%Q
  /\ ~ (int_truediv 2 3 == 2 # 3)%Q.
Proof. split; [| split]; vm_compute; [reflexivity | reflexivity | discriminate]. Qed.

Lemma error_count_le (r : ProtocolRun) :
  (error_count r <= length (sifted_alice r))%nat.
Proof.
  unfold error_count.
  etransitivity; [apply List.filter_length_le |]. now rewrite length_seq.
Qed.

Lemma qber_of_completed_run (num_rounds : Z) (use_eve : bool) (ci : pyval)
    (w w' : world) (r : ProtocolRun) :
  run_protocol num_rounds use_eve ci w = (Ok r, w') ->
  qber r = if Nat.eqb (length (sifted_alice r)) 0 then None
           else Some (int_truediv (Z.of_nat (error_count r))
                                  (Z.of_nat (length (sifted_alice r)))).
Proof.
  intros Hrun.
  pose proof (sifted_keys_same_length _ _ _ _ _ _ Hrun) as Hlen.
  destruct (run_protocol_completed _ _ _ _ _ _ Hrun)
    as (acc & _ & _ & _ & _ & _ & _ & _ & _ & _ & Hq).
  rewrite Hq, count_errors_filter, differing_by_index by exact Hlen. reflexivity.
Qed.

(** C4. In every completed run, [qber] is [None] exactly when the sifted
    key is empty (it is then no number at all, in particular not 0);
    otherwise it is the number of positions at which the two sifted
    keys differ, divided by the length of the sifted key: the division
    is Python's, so [qber] is the float nearest to the exact quotient
    (the even one of two equally near), a value between 0 and 1. *)
Theorem qber_definition (num_rounds : Z) (use_eve : bool) (custom_inputs : pyval)
    (w w' : world) (r : ProtocolRun) :
  run_protocol num_rounds use_eve custom_inputs w = (Ok r, w') ->
  match qber r with
  | None => length (sifted_alice r) = 0%nat
  | Some q =>
      length (sifted_alice r) <> 0%nat
      /\ q = int_truediv (Z.of_nat (error_count r))
                         (Z.of_nat (length (sifted_alice r)))
      /\ nearest_binary64 q (Z.of_nat (error_count r))
                            (Z.of_nat (length (sifted_alice r)))
      /\ (0 <= q)%Q /\ (q <= 1)%Q
  end.
Proof.
  intros Hrun. rewrite (qber_of_completed_run _ _ _ _ _ _ Hrun).
  destruct (Nat.eqb_spec (length (sifted_alice r)) 0) as [H0 | Hnz];
    [exact H0 |].
  split; [exact Hnz |]. split; [reflexivity |].
  pose proof (error_count_le r) as Hle.
  apply int_truediv_nearest; lia.
Qed.

(** ** Custom inputs *)

Lemma custom_arrays_truthy (ci : pyval) (bits abases bbases : list atom) :
  custom_arrays ci bits abases bbases -> truthy ci = true.
Proof.
  intros (d & -> & Hb & _). simpl.
  destruct (Nat.eqb_spec (size d) 0) as [H0 | ]; [| reflexivity].
  apply map_size_empty_iff in H0. subst d. now rewrite lookup_empty in Hb.
Qed.

(** With the three arrays in place, round [i] takes their [i]-th
    elements, and raises [IndexError] as soon as one array has none. *)
Lemma round_inputs_custom (ci : pyval) (bits abases bbases : list atom) (i : nat)
    (w : world) :
  custom_arrays ci bits abases bbases ->
  round_inputs ci i w
  = (match bits !! i, abases !! i, bbases !! i with
     | Some a, Some ab, Some bb => Ok (a, ab, bb)
     | _, _, _ => Raise IndexError
     end, w).
Proof.
  intros Hci. unfold round_inputs.
  rewrite (custom_arrays_truthy _ _ _ _ Hci).
  destruct Hci as (d & -> & Hb & Hab & Hbb).
  unfold bind, lift, ret, getitem_key. rewrite Hb, Hab, Hbb. simpl.
  destruct (bits !! i); [| reflexivity].
  destruct (abases !! i); [| reflexivity].
  destruct (bbases !! i); reflexivity.
Qed.

Lemma collect_custom (use_eve : bool) (ci : pyval) (bits abases bbases : list atom) :
  custom_arrays ci bits abases bbases ->
  forall (k s : nat) (acc : collected) (w : world),
    (s <= shortest bits abases bbases)%nat ->
    exists js,
      jobs (snd (collect use_eve ci (seq s k) acc w)) = jobs w ++ js
      /\ length js = Nat.min k (shortest bits abases bbases - s)
      /\ if (s + k <=? shortest bits abases bbases)%nat
         then exists acc', fst (collect use_eve ci (seq s k) acc w) = Ok acc'
         else fst (collect use_eve ci (seq s k) acc w) = Raise IndexError.
Proof.
  intros Hci. set (m := shortest bits abases bbases).
  induction k as [| k IH]; intros s acc w Hs.
  - exists []. simpl. rewrite app_nil_r. repeat split.
    destruct (Nat.leb_spec (s + 0) m); [eauto | lia].
  - cbn [seq]. rewrite collect_cons, (round_inputs_custom _ _ _ _ _ _ Hci).
    destruct (Nat.lt_ge_cases s m) as [Hlt | Hge].
    + assert (Hm : (m <= length bits /\ m <= length abases /\ m <= length bbases)%nat)
        by (unfold m, shortest; lia).
      destruct (lookup_lt_is_Some_2 bits s ltac:(lia)) as [a ->].
      destruct (lookup_lt_is_Some_2 abases s ltac:(lia)) as [ab ->].
      destruct (lookup_lt_is_Some_2 bbases s ltac:(lia)) as [bb ->].
      destruct (run_single_round_ok a ab bb use_eve w) as (c0 & _ & _ & _ & Hres & Hjobs).
      destruct (run_single_round a ab bb use_eve w) as [res w2]. simpl in Hres, Hjobs.
      subst res.
      assert (Hs' : (S s <= m)%nat) by lia.
      match goal with
      | |- context [collect use_eve ci (seq (S s) k) ?acc1 w2] =>
          destruct (IH (S s) acc1 w2 Hs') as (js & Hj & Hl & Hf)
      end.
      exists (round_circuit (eve_decision use_eve w) a ab bb :: js).
      rewrite Hj, Hjobs, <- app_assoc. split; [reflexivity |].
      split; [cbn [length]; lia |].
      replace (s + S k)%nat with (S s + k)%nat by lia. exact Hf.
    + assert (s = m) by lia. subst s.
      exists []. rewrite app_nil_r.
      assert (Hnone : match bits !! m, abases !! m, bbases !! m with
                      | Some a, Some ab, Some bb => Ok (a, ab, bb)
                      | _, _, _ => Raise IndexError
                      end = @Raise (atom * atom * atom) IndexError).
      { destruct (bits !! m) eqn:E1; [| reflexivity].
        destruct (abases !! m) eqn:E2; [| reflexivity].
        destruct (bbases !! m) eqn:E3; [| reflexivity].
        apply lookup_lt_Some in E1, E2, E3. unfold m, shortest in *. exfalso. lia. }
      rewrite Hnone. cbn [fst snd length]. split; [reflexivity |]. split; [lia |].
      destruct (Nat.leb_spec (m + S k) m); [lia | reflexivity].
Qed.

(** C5 (as the code has it). When [custom_inputs] holds the three arrays
    and the shortest of them has fewer than [num_rounds] elements,
    [run_protocol] raises [IndexError], and it does so at the first
    round for which an array has no element: the rounds before it, as
    many as the shortest array is long, have been executed by then. The
    run fails before any round executes exactly when the shortest array
    is empty. *)
Theorem short_custom_input_fails_at_first_missing_round (num_rounds : Z)
    (use_eve : bool) (custom_inputs : pyval) (bits abases bbases : list atom)
    (w : world) :
  custom_arrays custom_inputs bits abases bbases ->
  (shortest bits abases bbases < Z.to_nat num_rounds)%nat ->
  fst (run_protocol num_rounds use_eve custom_inputs w) = Raise IndexError
  /\ (exists js,
        jobs (snd (run_protocol num_rounds use_eve custom_inputs w)) = jobs w ++ js
        /\ length js = shortest bits abases bbases)
  /\ (fails_before_any_round num_rounds use_eve custom_inputs w
      <-> shortest bits abases bbases = 0%nat).
Proof.
  intros Hci Hshort.
  destruct (collect_custom use_eve _ _ _ _ Hci (Z.to_nat num_rounds) 0 empty_collected w
              ltac:(lia)) as (js & Hj & Hl & Hf).
  destruct (Nat.leb_spec (0 + Z.to_nat num_rounds) (shortest bits abases bbases));
    [lia |].
  assert (Hrun : run_protocol num_rounds use_eve custom_inputs w
                 = (Raise IndexError,
                    snd (collect use_eve custom_inputs (seq 0 (Z.to_nat num_rounds))
                           empty_collected w))).
  { unfold run_protocol. fold empty_collected.
    destruct (collect use_eve custom_inputs (seq 0 (Z.to_nat num_rounds))
                empty_collected w) as [res w1] eqn:Hc.
    simpl in Hf. subst res. now apply bind_raise. }
  rewrite Hrun. cbn [fst snd]. rewrite Hj.
  replace (Nat.min (Z.to_nat num_rounds) (shortest bits abases bbases - 0))
    with (shortest bits abases bbases) in Hl by lia.
  split; [reflexivity |]. split; [eauto |].
  unfold fails_before_any_round. rewrite Hrun. cbn [fst snd]. rewrite Hj. split.
  - intros (e & _ & Happ). apply (f_equal (@length _)) in Happ.
    rewrite length_app in Happ. lia.
  - intros H0. rewrite H0 in Hl. destruct js; [| discriminate].
    exists IndexError. now rewrite app_nil_r.
Qed.

Lemma one_round_inputs_arrays :
  custom_arrays one_round_inputs [AInt 1] [AStr "Z"] [AStr "Z"].
Proof. exists (<["alice_bits" := PList [AInt 1]]>
         (<["alice_bases" := PList [AStr "Z"]]>
          (<["bob_bases" := PList [AStr "Z"]]> ∅))).
  repeat split; vm_compute; reflexivity.
Defined.

Lemma short_custom_input_fails_at_first_missing_round_witness :
  fst (run_protocol 2 false one_round_inputs (constant_world 0 0)) = Raise IndexError
  /\ (exists js,
        jobs (snd (run_protocol 2 false one_round_inputs (constant_world 0 0)))
        = jobs (constant_world 0 0) ++ js
        /\ length js = shortest [AInt 1] [AStr "Z"] [AStr "Z"])
  /\ (fails_before_any_round 2 false one_round_inputs (constant_world 0 0)
      <-> shortest [AInt 1] [AStr "Z"] [AStr "Z"] = 0%nat).
Proof.
  apply (short_custom_input_fails_at_first_missing_round 2 false one_round_inputs
           [AInt 1] [AStr "Z"] [AStr "Z"] (constant_world 0 0)).
  - exact one_round_inputs_arrays.
  - vm_compute. lia.
Defined.

(** With two rounds asked for and arrays of one element, the first round
    is executed (one job reaches the backend) before the run fails. *)
Lemma short_custom_input_runs_a_round_first :
  custom_arrays one_round_inputs [AInt 1] [AStr "Z"] [AStr "Z"]
  /\ (length [AInt 1] < Z.to_nat 2)%nat
  /\ fst (run_protocol 2 false one_round_inputs (constant_world 0 0)) = Raise IndexError
  /\ length (jobs (snd (run_protocol 2 false one_round_inputs (constant_world 0 0))))
     = 1%nat
  /\ ~ fails_before_any_round 2 false one_round_inputs (constant_world 0 0).
Proof.
  split; [exact one_round_inputs_arrays |].
  split; [vm_compute; lia |].
  split; [vm_compute; reflexivity |].
  split; [vm_compute; reflexivity |].
  intros (e & _ & Hj). vm_compute in Hj. discriminate Hj.
Qed.

(** ** Runs without rounds, runs without custom inputs *)

(** C9. With [num_rounds = 0], [run_protocol] returns normally, whatever
    [use_eve] and [custom_inputs] are: the run has sifted length 0, no
    [qber], and empty arrays, and the world is untouched. *)
Theorem run_protocol_zero_rounds (use_eve : bool) (custom_inputs : pyval) (w : world) :
  run_protocol 0 use_eve custom_inputs w
  = (Ok {| raw_rounds := 0; sifted_length := 0; qber := None;
           alice_bits := []; bob_results := []; alice_bases := []; bob_bases := [];
           sifted_alice := []; sifted_bob := [] |}, w).
Proof. reflexivity. Qed.

Lemma round_inputs_falsy (ci : pyval) (i : nat) (w : world) :
  truthy ci = false ->
  round_inputs ci i w
  = (Ok (drawn_inputs w), tick_random (tick_random (tick_random w))).
Proof.
  intros Hf. unfold round_inputs. rewrite Hf.
  unfold bind at 1. rewrite random_choice_two.
  unfold bind at 1. rewrite random_choice_two.
  unfold bind at 1. rewrite random_choice_two.
  reflexivity.
Qed.

Lemma drawn_inputs_domain (w : world) :
  let '(a, ab, bb) := drawn_inputs w in is_bit a /\ is_basis ab /\ is_basis bb.
Proof.
  unfold drawn_inputs, is_bit, is_basis. cbv zeta.
  repeat match goal with |- context [N.even ?u] => destruct (N.even u) end; auto.
Qed.

Lemma collect_falsy (use_eve : bool) (ci : pyval) (range : list nat) :
  truthy ci = false ->
  forall (acc : collected) (w : world),
    collect use_eve ci range acc w = collect use_eve (PAtom ANone) range acc w.
Proof.
  intros Hf. induction range as [| i range IH]; intros acc w; [reflexivity |].
  rewrite !collect_cons, (round_inputs_falsy ci i w Hf),
    (round_inputs_falsy (PAtom ANone) i w eq_refl).
  destruct (drawn_inputs w) as [[a ab] bb].
  destruct (run_single_round a ab bb use_eve _) as [[[[[? ?] ?] m] | e] w2];
    [apply IH | reflexivity].
Qed.

Lemma collect_random_ok (use_eve : bool) (ci : pyval) (range : list nat) :
  truthy ci = false ->
  forall (acc : collected) (w : world),
    Forall is_bit (c_alice_bits acc) ->
    Forall is_basis (c_alice_bases acc) ->
    Forall is_basis (c_bob_bases acc) ->
    exists acc' w',
      collect use_eve ci range acc w = (Ok acc', w')
      /\ Forall is_bit (c_alice_bits acc')
      /\ Forall is_basis (c_alice_bases acc')
      /\ Forall is_basis (c_bob_bases acc').
Proof.
  intros Hf. induction range as [| i range IH]; intros acc w H1 H2 H3.
  - exists acc, w. now repeat split.
  - rewrite collect_cons, (round_inputs_falsy ci i w Hf).
    pose proof (drawn_inputs_domain w) as Hd.
    destruct (drawn_inputs w) as [[a ab] bb]. destruct Hd as (Ha & Hab & Hbb).
    set (w1 := tick_random (tick_random (tick_random w))).
    destruct (run_single_round_ok a ab bb use_eve w1) as (c0 & _ & _ & _ & Hres & _).
    destruct (run_single_round a ab bb use_eve w1) as [res w2]. simpl in Hres. subst res.
    apply IH; cbn [c_alice_bits c_alice_bases c_bob_bases];
      apply Forall_app; split; auto.
Qed.

Lemma sampled_inputs_length (use_eve : bool) (stream : nat -> N) (pos rounds : nat) :
  length (sampled_inputs use_eve stream pos rounds) = rounds.
Proof.
  revert pos. induction rounds as [| n IH]; intros pos; [reflexivity |].
  cbn [sampled_inputs length]. now rewrite IH.
Qed.

(** The loop on sampled inputs: one round per index, each on the three
    values drawn at its turn. *)
Lemma collect_sampled (use_eve : bool) (ci : pyval) (range : list nat) :
  truthy ci = false ->
  forall (acc : collected) (w : world),
    exists acc' w',
      collect use_eve ci range acc w = (Ok acc', w')
      /\ length (jobs w') = (length (jobs w) + length range)%nat
      /\ let rounds :=
           sampled_inputs use_eve (py_random w) (py_random_pos w) (length range) in
         c_alice_bits acc' = c_alice_bits acc ++ ((fun x => fst (fst x)) <$> rounds)
         /\ c_alice_bases acc' = c_alice_bases acc ++ ((fun x => snd (fst x)) <$> rounds)
         /\ c_bob_bases acc' = c_bob_bases acc ++ (snd <$> rounds).
Proof.
  intros Hf. induction range as [| i range IH]; intros acc w.
  - exists acc, w. cbn [collect length sampled_inputs fmap list_fmap].
    rewrite !app_nil_r, Nat.add_0_r. now repeat split.
  - rewrite collect_cons, (round_inputs_falsy ci i w Hf).
    unfold drawn_inputs. cbv zeta.
    set (a := if N.even (py_random w (py_random_pos w)) then AInt 0 else AInt 1).
    set (ab := if N.even (py_random w (S (py_random_pos w)))
               then AStr "Z" else AStr "X").
    set (bb := if N.even (py_random w (S (S (py_random_pos w))))
               then AStr "Z" else AStr "X").
    set (w1 := tick_random (tick_random (tick_random w))).
    destruct (run_single_round_ok a ab bb use_eve w1) as (c0 & _ & _ & _ & Hres & Hjobs).
    pose proof (run_single_round_random_pos a ab bb use_eve w1) as Hpos.
    destruct (run_single_round_world a ab bb use_eve w1) as (_ & _ & _ & _ & _ & Htape).
    destruct (run_single_round a ab bb use_eve w1) as [res w2].
    cbn [fst snd] in Hres, Hjobs, Hpos, Htape. subst res.
    change (py_random w1) with (py_random w) in Hpos, Htape.
    change (py_random_pos w1) with (S (S (S (py_random_pos w)))) in Hpos.
    change (jobs w1) with (jobs w) in Hjobs.
    match goal with
    | |- context [collect use_eve ci range ?acc1 w2] =>
        destruct (IH acc1 w2) as (acc' & w' & Hc & Hj & Hbits & Hab & Hbb)
    end.
    cbn [c_alice_bits c_alice_bases c_bob_bases] in Hbits, Hab, Hbb.
    rewrite Htape, Hpos in Hbits, Hab, Hbb.
    exists acc', w'. split; [exact Hc |]. split.
    { rewrite Hj, Hjobs, length_app. cbn [length]. lia. }
    cbn [length sampled_inputs fmap list_fmap fst snd].
    fold a ab bb.
    rewrite Hbits, Hab, Hbb, <- !app_assoc. now repeat split.
Qed.

(** C10. When [custom_inputs] is falsy, [run_protocol] does what it does
    for [None]: each round takes its bit and its two bases from three
    successive draws of [random] (0 or 1, 'Z' or 'X', 'Z' or 'X', by the
    parity of the draw), the object is never subscripted, and the run
    completes without raising: it has run [num_rounds] rounds, and the
    bits and bases it records are, round by round, the ones drawn. *)
Theorem falsy_custom_inputs_are_ignored (num_rounds : Z) (use_eve : bool)
    (custom_inputs : pyval) (w : world) :
  truthy custom_inputs = false ->
  run_protocol num_rounds use_eve custom_inputs w
  = run_protocol num_rounds use_eve (PAtom ANone) w
  /\ (forall (i : nat) (w0 : world),
        round_inputs custom_inputs i w0
        = (Ok (drawn_inputs w0), tick_random (tick_random (tick_random w0))))
  /\ exists r w',
       run_protocol num_rounds use_eve custom_inputs w = (Ok r, w')
       /\ Forall is_bit (alice_bits r)
       /\ Forall is_basis (alice_bases r)
       /\ Forall is_basis (bob_bases r)
       /\ raw_rounds r = num_rounds
       /\ length (jobs w') = (length (jobs w) + Z.to_nat num_rounds)%nat
       /\ let rounds :=
            sampled_inputs use_eve (py_random w) (py_random_pos w)
                           (Z.to_nat num_rounds) in
          length rounds = Z.to_nat num_rounds
          /\ alice_bits r = (fun x => fst (fst x)) <$> rounds
          /\ alice_bases r = (fun x => snd (fst x)) <$> rounds
          /\ bob_bases r = snd <$> rounds.
Proof.
  intros Hf. split; [| split].
  - unfold run_protocol. unfold bind.
    now rewrite (collect_falsy use_eve custom_inputs _ Hf).
  - intros i w0. now apply round_inputs_falsy.
  - destruct (collect_random_ok use_eve custom_inputs (seq 0 (Z.to_nat num_rounds)) Hf
                empty_collected w) as (acc & w' & Hc & H1 & H2 & H3);
      try (apply Forall_nil; exact I).
    destruct (collect_sampled use_eve custom_inputs (seq 0 (Z.to_nat num_rounds)) Hf
                empty_collected w) as (acc2 & w2 & Hc2 & Hj & Hbits & Hab & Hbb).
    rewrite Hc in Hc2. injection Hc2 as <- <-.
    rewrite length_seq in Hj, Hbits, Hab, Hbb.
    unfold run_protocol. fold empty_collected.
    erewrite bind_ok by exact Hc. unfold ret.
    eexists; eexists. split; [reflexivity |].
    cbn [alice_bits alice_bases bob_bases raw_rounds].
    split; [exact H1 |]. split; [exact H2 |]. split; [exact H3 |].
    split; [reflexivity |]. split; [exact Hj |].
    split; [apply sampled_inputs_length |].
    split; [exact Hbits |]. split; [exact Hab | exact Hbb].
Qed.

Lemma falsy_custom_inputs_are_ignored_witness :
  run_protocol 2 true (PDict ∅) (constant_world 0 0)
  = run_protocol 2 true (PAtom ANone) (constant_world 0 0)
  /\ (forall (i : nat) (w0 : world),
        round_inputs (PDict ∅) i w0
        = (Ok (drawn_inputs w0), tick_random (tick_random (tick_random w0))))
  /\ exists r w',
       run_protocol 2 true (PDict ∅) (constant_world 0 0) = (Ok r, w')
       /\ Forall is_bit (alice_bits r)
       /\ Forall is_basis (alice_bases r)
       /\ Forall is_basis (bob_bases r)
       /\ raw_rounds r = 2
       /\ length (jobs w') = (length (jobs (constant_world 0 0)) + Z.to_nat 2)%nat
       /\ let rounds :=
            sampled_inputs true (py_random (constant_world 0 0))
                           (py_random_pos (constant_world 0 0)) (Z.to_nat 2) in
          length rounds = Z.to_nat 2
          /\ alice_bits r = (fun x => fst (fst x)) <$> rounds
          /\ alice_bases r = (fun x => snd (fst x)) <$> rounds
          /\ bob_bases r = snd <$> rounds.
Proof.
  apply (falsy_custom_inputs_are_ignored 2 true (PDict ∅) (constant_world 0 0)).
  vm_compute. reflexivity.
Defined.

(** ** A run on given inputs *)

Lemma three_round_run_completes :
  run_protocol 3 false three_round_inputs (constant_world 0 0)
  = (Ok three_round_run,
     snd (run_protocol 3 false three_round_inputs (constant_world 0 0))).
Proof. vm_compute. reflexivity. Qed.

(** Two errors in a sifted key of three bits: the [qber] is the float
    0.6666666666666666, which is not the rational 2/3. *)
Lemma all_Z_run_qber :
  exists r w',
    run_protocol 3 false all_Z_inputs (constant_world 0 0) = (Ok r, w')
    /\ length (sifted_alice r) = 3%nat
    /\ error_count r = 2%nat
    /\ qber r = Some (6004799503160661 # 9007199254740992)%Q
    /\ ~ (6004799503160661 # 9007199254740992 == 2 # 3)%Q.
Proof.
  eexists. eexists. split; [vm_compute; reflexivity |].
  split; [reflexivity |]. split; [reflexivity |].
  split; [vm_compute; reflexivity | discriminate].
Qed.

Lemma sifting_invariant_witness :
  let r := three_round_run in
  length (sifted_alice r) = length (sifted_bob r)
  /\ length (sifted_alice r) = length (matching_rounds r)
  /\ sifted_length r = length (matching_rounds r)
  /\ sifted_alice r = omap (fun i => alice_bits r !! i) (matching_rounds r)
  /\ sifted_bob r = omap (fun i => bob_results r !! i) (matching_rounds r)
  /\ matching_rounds r = List.filter (bases_agree r) (seq 0 (Z.to_nat 3))
  /\ length (alice_bases r) = Z.to_nat 3
  /\ length (bob_bases r) = Z.to_nat 3.
Proof.
  apply (sifting_invariant 3 false three_round_inputs (constant_world 0 0)
           (snd (run_protocol 3 false three_round_inputs (constant_world 0 0)))
           three_round_run).
  vm_compute. reflexivity.
Defined.

Lemma qber_definition_witness :
  match qber three_round_run with
  | None => length (sifted_alice three_round_run) = 0%nat
  | Some q =>
      length (sifted_alice three_round_run) <> 0%nat
      /\ q = int_truediv (Z.of_nat (error_count three_round_run))
                         (Z.of_nat (length (sifted_alice three_round_run)))
      /\ nearest_binary64 q (Z.of_nat (error_count three_round_run))
                            (Z.of_nat (length (sifted_alice three_round_run)))
      /\ (0 <= q)%Q /\ (q <= 1)%Q
  end.
Proof.
  apply (qber_definition 3 false three_round_inputs (constant_world 0 0)
           (snd (run_protocol 3 false three_round_inputs (constant_world 0 0)))
           three_round_run).
  vm_compute. reflexivity.
Defined.

(** * Further properties *)

(** ** The entangled pair *)

(** X1. The pair made by [bell_pair] on two different qubits is
    perfectly correlated in both bases: measuring its two halves in Z,
    or both in X, gives the same bit on either side in every observable
    outcome, and that bit is 0 or 1 with equal weight. *)
Theorem bell_pair_correlated (a b : nat) (x_basis : bool) :
  (a < 3)%nat -> (b < 3)%nat -> a <> b ->
  let os := Sim.outcomes (measure_pair (bell_pair [] a b) a b x_basis) in
  Forall (fun o => fst o !! 0%nat = fst o !! 1%nat) os
  /\ 2 * weight_where (slot_is 0 true) os = total_weight os
  /\ os <> [].
Proof.
  intros Ha Hb Hab.
  destruct a as [| [| [| a]]]; try lia; destruct b as [| [| [| b]]]; try lia;
    destruct x_basis; cbv zeta;
    (split; [vm_compute; repeat constructor | split; [vm_compute; reflexivity |
                                                      vm_compute; discriminate]]).
Qed.

Lemma bell_pair_correlated_witness :
  let os := Sim.outcomes (measure_pair (bell_pair [] 1 2) 1 2 true) in
  Forall (fun o => fst o !! 0%nat = fst o !! 1%nat) os
  /\ 2 * weight_where (slot_is 0 true) os = total_weight os
  /\ os <> [].
Proof. apply (bell_pair_correlated 1 2 true); lia. Defined.

(** ** What a round does to the world *)


(** X2. A round never raises: it returns its three inputs unchanged
    together with a bit that is 0 or 1, after handing exactly one
    circuit to the backend and consuming exactly one of its shots. *)
Theorem run_single_round_total (a ab bb : atom) (use_eve : bool) (w : world) :
  exists m qc,
    fst (run_single_round a ab bb use_eve w) = Ok (a, ab, bb, m)
    /\ (m = 0 \/ m = 1)
    /\ jobs (snd (run_single_round a ab bb use_eve w)) = jobs w ++ [qc]
    /\ backend_pos (snd (run_single_round a ab bb use_eve w)) = S (backend_pos w).
Proof.
  destruct (run_single_round_ok a ab bb use_eve w) as (c0 & _ & _ & _ & Hres & _).
  destruct (run_single_round_world a ab bb use_eve w) as (Hj & _ & _ & Hp & _).
  exists (Z_of_bit c0), (round_circuit (eve_decision use_eve w) a ab bb).
  split; [exact Hres |]. split; [destruct c0; auto |]. split; assumption.
Qed.

(** X3. The circuit is rendered by the first round only: a round that
    finds [_DEBUG_CIRCUIT] set renders exactly the circuit it is about
    to run, a round that finds it cleared renders nothing, and after
    any round the flag is cleared. *)
Theorem circuit_drawn_once (a ab bb : atom) (use_eve : bool) (w : world) :
  let w' := snd (run_single_round a ab bb use_eve w) in
  _DEBUG_CIRCUIT w' = false
  /\ drawn w'
     = drawn w ++ (if _DEBUG_CIRCUIT w
                   then [round_circuit (eve_decision use_eve w) a ab bb] else [])
  /\ (forall (a' ab' bb' : atom) (use_eve' : bool),
        drawn (snd (run_single_round a' ab' bb' use_eve' w')) = drawn w').
Proof.
  cbv zeta.
  destruct (run_single_round_world a ab bb use_eve w) as (_ & Hd & Hf & _).
  split; [exact Hf |]. split; [exact Hd |].
  intros a' ab' bb' use_eve'.
  destruct (run_single_round_world a' ab' bb' use_eve'
              (snd (run_single_round a ab bb use_eve w))) as (_ & Hd' & _).
  rewrite Hd', Hf. apply app_nil_r.
Qed.

(** ** The circuits of a round *)

Lemma round_circuit_shape (eve : option atom) (a ab bb : atom) :
  let qc := round_circuit eve a ab bb in
  forallb in_registers qc = true
  /\ last qc = Some (Measure receiver_half receiver_slot)
  /\ writes_to receiver_slot qc = 1%nat
  /\ (9 <= length qc <= 15)%nat.
Proof.
  unfold round_circuit, eve_ops, prepare_bb84_state.
  destruct eve; case_conditions; cbv zeta;
    (split; [reflexivity | split; [reflexivity | split; [reflexivity | simpl; lia]]]).
Qed.

Lemma round_job (a ab bb : atom) (use_eve : bool) (w : world) :
  jobs (snd (run_single_round a ab bb use_eve w))
  = jobs w ++ [round_circuit (eve_decision use_eve w) a ab bb].
Proof. now destruct (run_single_round_world a ab bb use_eve w) as [-> _]. Qed.

(** X4. Whatever its inputs and whatever the eavesdropper does, the
    circuit a round hands to the backend stays inside its registers:
    every instruction addresses qubits and classical bits 0..2, the
    two-qubit gates have two different qubits, the last instruction is
    the receiver's measurement of qubit 2 into classical bit 2, no other
    instruction writes classical bit 2, and there are between 9 and 15
    instructions. *)
Theorem round_circuit_in_registers (a ab bb : atom) (use_eve : bool) (w : world) :
  exists qc,
    jobs (snd (run_single_round a ab bb use_eve w)) = jobs w ++ [qc]
    /\ forallb in_registers qc = true
    /\ last qc = Some (Measure receiver_half receiver_slot)
    /\ writes_to receiver_slot qc = 1%nat
    /\ (9 <= length qc <= 15)%nat.
Proof.
  eexists. split; [apply round_job |]. apply round_circuit_shape.
Qed.

Lemma slot_0_fair (eve : option atom) (a ab bb : atom) :
  let os := Sim.outcomes (round_circuit eve a ab bb) in
  2 * weight_where (slot_is 0 true) os = total_weight os
  /\ 2 * weight_where (slot_is 0 false) os = total_weight os.
Proof.
  unfold round_circuit, eve_ops, prepare_bb84_state.
  destruct eve; case_conditions; split; vm_compute; reflexivity.
Qed.

(** X5. The bit a round reports is a fair coin: in the circuit the
    round hands to the backend, with any inputs and any choice of the
    eavesdropper, the outcomes whose classical bit 0 is 1 carry exactly
    half of the weight, and so do those whose classical bit 0 is 0. *)
Theorem reported_bit_is_fair_coin (a ab bb : atom) (use_eve : bool) (w : world) :
  exists qc,
    jobs (snd (run_single_round a ab bb use_eve w)) = jobs w ++ [qc]
    /\ 2 * weight_where (slot_is 0 true) (Sim.outcomes qc)
       = total_weight (Sim.outcomes qc)
    /\ 2 * weight_where (slot_is 0 false) (Sim.outcomes qc)
       = total_weight (Sim.outcomes qc).
Proof.
  eexists. split; [apply round_job |]. apply slot_0_fair.
Qed.

Lemma disturbance_by_basis (b x e : bool) :
  let os := Sim.outcomes (round_circuit (Some (basis_atom e)) (bit_atom b)
                            (basis_atom x) (basis_atom x)) in
  if Bool.eqb e x
  then Forall (fun o => fst o !! receiver_slot = Some b) os
  else 2 * weight_where (slot_is receiver_slot (negb b)) os = total_weight os.
Proof.
  destruct b, x, e; cbv zeta; simpl Bool.eqb;
    first [ vm_compute; reflexivity | vm_compute; repeat constructor ].
Qed.

(** X6. In a round where Alice and Bob use the same basis and the
    eavesdropper acts: if she measures in that basis the receiver's bit
    is intact, classical bit 2 being Alice's bit in every observable
    outcome; if she measures in the other basis classical bit 2 differs
    from Alice's bit on exactly half of the weight. *)
Theorem eavesdropper_disturbance (b x e : bool) (w : world) :
  eve_decision true w = Some (basis_atom e) ->
  exists qc,
    jobs (snd (run_single_round (bit_atom b) (basis_atom x) (basis_atom x) true w))
    = jobs w ++ [qc]
    /\ if Bool.eqb e x
       then Forall (fun o => fst o !! receiver_slot = Some b) (Sim.outcomes qc)
       else 2 * weight_where (slot_is receiver_slot (negb b)) (Sim.outcomes qc)
            = total_weight (Sim.outcomes qc).
Proof.
  intros He. eexists. split; [apply round_job |].
  rewrite He. apply disturbance_by_basis.
Qed.

Lemma eavesdropper_disturbance_witness :
  exists qc,
    jobs (snd (run_single_round (bit_atom true) (basis_atom true) (basis_atom true) true
                 (constant_world 0 0)))
    = jobs (constant_world 0 0) ++ [qc]
    /\ 2 * weight_where (slot_is receiver_slot (negb true)) (Sim.outcomes qc)
       = total_weight (Sim.outcomes qc).
Proof.
  apply (eavesdropper_disturbance true true false (constant_world 0 0)).
  vm_compute. reflexivity.
Defined.

Lemma mismatched_slot_2_fair (eve : option atom) (b x : bool) :
  let os := Sim.outcomes (round_circuit eve (bit_atom b)
                            (basis_atom x) (basis_atom (negb x))) in
  2 * weight_where (slot_is receiver_slot true) os = total_weight os.
Proof.
  unfold round_circuit, eve_ops.
  destruct eve as [e |]; [destruct (Py.eq e (AStr "X")) |];
    destruct b, x; vm_compute; reflexivity.
Qed.

(** X7. When Bob measures in the basis Alice did not use, the receiver's
    bit says nothing about Alice's: in the circuit of the round
    classical bit 2 is 1 on exactly half of the weight, for either bit,
    with or without the eavesdropper. *)
Theorem mismatched_bases_give_fair_coin (b x use_eve : bool) (w : world) :
  exists qc,
    jobs (snd (run_single_round (bit_atom b) (basis_atom x) (basis_atom (negb x))
                 use_eve w))
    = jobs w ++ [qc]
    /\ 2 * weight_where (slot_is receiver_slot true) (Sim.outcomes qc)
       = total_weight (Sim.outcomes qc).
Proof.
  eexists. split; [apply round_job |]. apply mismatched_slot_2_fair.
Qed.

(** ** Values outside the data model *)

(** X8. A bit that is neither 0 nor 1 is accepted silently and encoded
    as 0 in basis Z but as 1 in basis X; [True] and [False] are encoded
    as 1 and 0. *)
Theorem prepare_bb84_state_other_bits (qc : QuantumCircuit) (q : nat) (bit : atom) :
  Py.eq bit (AInt 0) = false -> Py.eq bit (AInt 1) = false ->
  prepare_bb84_state qc q bit (AStr "Z") = prepare_bb84_state qc q (AInt 0) (AStr "Z")
  /\ prepare_bb84_state qc q bit (AStr "X") = prepare_bb84_state qc q (AInt 1) (AStr "X")
  /\ (forall (t : bool) (basis : atom),
        prepare_bb84_state qc q (ABool t) basis
        = prepare_bb84_state qc q (bit_atom t) basis).
Proof.
  intros H0 H1. unfold prepare_bb84_state. simpl Py.eq at 1 3 4 6.
  rewrite H0, H1. simpl.
  split; [reflexivity |]. split; [reflexivity |].
  intros [|] basis; reflexivity.
Qed.

Lemma prepare_bb84_state_other_bits_witness :
  prepare_bb84_state [] 0 (AInt 2) (AStr "Z") = prepare_bb84_state [] 0 (AInt 0) (AStr "Z")
  /\ prepare_bb84_state [] 0 (AInt 2) (AStr "X")
     = prepare_bb84_state [] 0 (AInt 1) (AStr "X")
  /\ (forall (t : bool) (basis : atom),
        prepare_bb84_state [] 0 (ABool t) basis
        = prepare_bb84_state [] 0 (bit_atom t) basis).
Proof. apply (prepare_bb84_state_other_bits [] 0 (AInt 2)); reflexivity. Defined.

Lemma round_circuit_fallback (eve : option atom) (a ab bb : atom) :
  (bb <> AStr "X" ->
   round_circuit eve a ab bb = round_circuit eve a ab (AStr "Z"))
  /\ (ab <> AStr "Z" -> ab <> AStr "X" ->
      round_circuit eve a ab bb = round_circuit eve (AInt 0) (AStr "Z") bb).
Proof.
  unfold round_circuit, prepare_bb84_state. split.
  - intros Hbb. rewrite (eq_AStr_false _ _ Hbb). reflexivity.
  - intros HZ HX. rewrite (eq_AStr_false _ _ HZ), (eq_AStr_false _ _ HX).
    reflexivity.
Qed.

(** X9. Basis labels are compared with 'Z' and 'X' only. With any
    [bob_basis] other than 'X' the round runs the circuit it runs for
    [bob_basis] 'Z', whatever Alice's bit and basis. With any
    [alice_basis] other than 'Z' and 'X' it runs, whatever Alice's bit
    and whatever [bob_basis] ('X' included), the circuit it runs for
    bit 0 in basis Z. *)
Theorem unknown_labels_fall_back (a ab bb : atom) (use_eve : bool) (w : world) :
  (bb <> AStr "X" ->
   jobs (snd (run_single_round a ab bb use_eve w))
   = jobs (snd (run_single_round a ab (AStr "Z") use_eve w)))
  /\ (ab <> AStr "Z" -> ab <> AStr "X" ->
      jobs (snd (run_single_round a ab bb use_eve w))
      = jobs (snd (run_single_round (AInt 0) (AStr "Z") bb use_eve w))).
Proof.
  rewrite !round_job.
  destruct (round_circuit_fallback (eve_decision use_eve w) a ab bb) as [Hbob Halice].
  split.
  - intros Hbb. now rewrite (Hbob Hbb).
  - intros HZ HX. now rewrite (Halice HZ HX).
Qed.

Lemma unknown_labels_fall_back_witness :
  jobs (snd (run_single_round (AInt 1) (AStr "x") (AStr "z") true (constant_world 0 0)))
  = jobs (snd (run_single_round (AInt 1) (AStr "x") (AStr "Z") true (constant_world 0 0)))
  /\ jobs (snd (run_single_round (AInt 1) (AStr "x") (AStr "X") true (constant_world 0 0)))
     = jobs (snd (run_single_round (AInt 0) (AStr "Z") (AStr "X") true
                    (constant_world 0 0))).
Proof.
  split.
  - destruct (unknown_labels_fall_back (AInt 1) (AStr "x") (AStr "z") true
                (constant_world 0 0)) as [Hbob _].
    apply Hbob. discriminate.
  - destruct (unknown_labels_fall_back (AInt 1) (AStr "x") (AStr "X") true
                (constant_world 0 0)) as [_ Halice].
    apply Halice; discriminate.
Defined.

(** ** What a run does to the world *)

Lemma round_inputs_truthy_world (ci : pyval) (i : nat) (w : world) :
  truthy ci = true -> snd (round_inputs ci i w) = w.
Proof.
  intros Ht. unfold round_inputs. rewrite Ht. unfold bind, lift, ret.
  repeat match goal with
         | |- context [match ?r with Ok _ => _ | Raise _ => _ end] =>
             destruct r; try reflexivity
         | |- context [let (_, _) := ?r in _] => destruct r
         end.
Qed.

Lemma run_protocol_collect (num_rounds : Z) (use_eve : bool) (ci : pyval) (w : world) :
  let c := collect use_eve ci (seq 0 (Z.to_nat num_rounds)) empty_collected w in
  snd (run_protocol num_rounds use_eve ci w) = snd c
  /\ match fst c with
     | Ok _ => exists r, fst (run_protocol num_rounds use_eve ci w) = Ok r
     | Raise e => fst (run_protocol num_rounds use_eve ci w) = Raise e
     end.
Proof.
  cbv zeta. unfold run_protocol. fold empty_collected. unfold bind.
  destruct (collect use_eve ci (seq 0 (Z.to_nat num_rounds)) empty_collected w)
    as [[acc | e] w1]; cbn [fst snd]; [| now split].
  unfold ret. cbn [fst snd]. split; [reflexivity | eauto].
Qed.

Lemma run_effect_nil (use_eve : bool) (ci : pyval) (w : world) :
  run_effect use_eve ci w w [].
Proof.
  unfold run_effect. cbn [length take Nat.eqb].
  rewrite app_nil_r, andb_true_r, Nat.add_0_r.
  split; [reflexivity |].
  split; [destruct (_DEBUG_CIRCUIT w); now rewrite app_nil_r |].
  do 4 (split; [reflexivity |]).
  exists 0%nat. split; [destruct (truthy ci); lia | now destruct use_eve].
Qed.

Lemma collect_world (use_eve : bool) (ci : pyval) (range : list nat) :
  forall (acc : collected) (w : world),
  exists js,
    run_effect use_eve ci w (snd (collect use_eve ci range acc w)) js
    /\ match fst (collect use_eve ci range acc w) with
       | Ok _ => length js = length range
       | Raise _ => (length js < length range)%nat
       end.
Proof.
  induction range as [| i range IH]; intros acc w.
  - exists []. cbn [collect ret fst snd length]. split; [apply run_effect_nil | reflexivity].
  - rewrite collect_cons.
    destruct (round_inputs ci i w) as [[[[a ab] bb] | e] w1] eqn:Hin.
    + (* the inputs of round [i] were obtained *)
      assert (Hw1 : jobs w1 = jobs w /\ drawn w1 = drawn w
                    /\ _DEBUG_CIRCUIT w1 = _DEBUG_CIRCUIT w
                    /\ backend_pos w1 = backend_pos w
                    /\ backend_seed w1 = backend_seed w
                    /\ py_random w1 = py_random w
                    /\ py_random_pos w1
                       = (py_random_pos w + if truthy ci then 0 else 3)%nat).
      { destruct (truthy ci) eqn:Ht.
        - pose proof (round_inputs_truthy_world ci i w Ht) as Hs.
          rewrite Hin in Hs. simpl in Hs. subst w1. rewrite Nat.add_0_r. auto 10.
        - rewrite (round_inputs_falsy ci i w Ht) in Hin. inversion Hin; subst.
          simpl. repeat split; lia. }
      destruct Hw1 as (J1 & D1 & F1 & B1 & S1 & R1 & P1).
      destruct (run_single_round_ok a ab bb use_eve w1) as (c0 & _ & _ & _ & Hres & _).
      destruct (run_single_round_world a ab bb use_eve w1)
        as (J2 & D2 & F2 & B2 & S2 & R2).
      pose proof (run_single_round_random_pos a ab bb use_eve w1) as P2.
      set (qc := round_circuit (eve_decision use_eve w1) a ab bb) in *.
      destruct (run_single_round a ab bb use_eve w1) as [res w2].
      cbn [fst snd] in *. subst res.
      match goal with
      | |- context [collect use_eve ci range ?acc1 w2] =>
          destruct (IH acc1 w2) as (js & (J3 & D3 & F3 & B3 & S3 & R3 & d & P3 & Hd) & Hlen);
          set (c := collect use_eve ci range acc1 w2) in *
      end.
      exists (qc :: js). split.
      * unfold run_effect. cbn [length take].
        rewrite J3, J2, J1, D3, D2, D1, F3, F2, F1, B3, B2, B1, S3, S2, S1, R3, R2, R1.
        rewrite <- !app_assoc. cbn [app Nat.eqb].
        split; [reflexivity |].
        split; [destruct (_DEBUG_CIRCUIT w); cbn [take app]; now rewrite ?app_nil_r |].
        split; [now rewrite andb_false_r |].
        split; [lia |]. split; [reflexivity |]. split; [reflexivity |].
        set (k := (if use_eve
                   then if eve_acts (py_random w1 (py_random_pos w1)) then 2 else 1
                   else 0)%nat) in P2.
        assert (Hk : if use_eve then (1 <= k <= 2)%nat else k = 0%nat)
          by (subst k; destruct use_eve; [destruct (eve_acts _) |]; lia).
        clearbody k. exists (k + d)%nat.
        rewrite P3, P2, P1. split.
        -- destruct (truthy ci); lia.
        -- destruct use_eve; lia.
      * destruct (fst c); cbn [length]; lia.
    + (* round [i] found no inputs: nothing has run *)
      assert (Ht : truthy ci = true).
      { destruct (truthy ci) eqn:Ht; [reflexivity |].
        rewrite (round_inputs_falsy ci i w Ht) in Hin. discriminate Hin. }
      pose proof (round_inputs_truthy_world ci i w Ht) as Hs.
      rewrite Hin in Hs. simpl in Hs. subst w1.
      exists []. cbn [fst snd length]. split; [apply run_effect_nil | lia].
Qed.

(** X10. Whether a run completes or fails, the world records it
    faithfully: the circuits handed to the backend are as many as the
    rounds that ran (all [num_rounds] of them exactly when the run
    completes, fewer when it raises), each consumed one shot, only the
    first of them is rendered and only if [_DEBUG_CIRCUIT] was still
    set, and the draws taken from [random] are three per round when the
    inputs are sampled, none when they are supplied, plus one or two per
    round for the eavesdropper when [use_eve] holds. *)
Theorem run_protocol_effect (num_rounds : Z) (use_eve : bool) (custom_inputs : pyval)
    (w : world) :
  exists js,
    run_effect use_eve custom_inputs w
      (snd (run_protocol num_rounds use_eve custom_inputs w)) js
    /\ match fst (run_protocol num_rounds use_eve custom_inputs w) with
       | Ok _ => length js = Z.to_nat num_rounds
       | Raise _ => (length js < Z.to_nat num_rounds)%nat
       end.
Proof.
  destruct (run_protocol_collect num_rounds use_eve custom_inputs w) as [Hs Hf].
  destruct (collect_world use_eve custom_inputs (seq 0 (Z.to_nat num_rounds))
              empty_collected w) as (js & He & Hl).
  exists js. rewrite Hs. split; [exact He |].
  rewrite length_seq in Hl.
  destruct (fst (collect use_eve custom_inputs (seq 0 (Z.to_nat num_rounds))
                   empty_collected w)).
  - destruct Hf as [r ->]. exact Hl.
  - rewrite Hf. exact Hl.
Qed.

(** ** Completed runs *)

Lemma collect_binary (use_eve : bool) (ci : pyval) (range : list nat) :
  forall (acc acc' : collected) (w w' : world),
    Forall is_binary (c_bob_results acc) ->
    collect use_eve ci range acc w = (Ok acc', w') ->
    Forall is_binary (c_bob_results acc').
Proof.
  induction range as [| i range IH]; intros acc acc' w w' Hb Hrun.
  - simpl in Hrun. unfold ret in Hrun. now inversion Hrun; subst.
  - rewrite collect_cons in Hrun.
    destruct (round_inputs ci i w) as [[[[a ab] bb] | e] w1]; [| discriminate].
    destruct (run_single_round_ok a ab bb use_eve w1) as (c0 & _ & _ & _ & Hres & _).
    destruct (run_single_round a ab bb use_eve w1) as [res w2].
    cbn [fst] in Hres. subst res.
    apply IH in Hrun; [exact Hrun |].
    cbn [c_bob_results]. apply Forall_app. split; [exact Hb |].
    constructor; [destruct c0; [right | left]; reflexivity | constructor].
Qed.

(** X11. A completed run has one entry per round in each of its four
    arrays: with [n] the number of rounds ([num_rounds], or 0 when it
    is negative), [alice_bits], [alice_bases], [bob_bases] and
    [bob_results] all have length [n]; Bob's results are 0 or 1;
    [raw_rounds] is [num_rounds] itself; and the sifted keys are no
    longer than [n]. *)
Theorem completed_run_shape (num_rounds : Z) (use_eve : bool) (custom_inputs : pyval)
    (w w' : world) (r : ProtocolRun) :
  run_protocol num_rounds use_eve custom_inputs w = (Ok r, w') ->
  raw_rounds r = num_rounds
  /\ length (alice_bits r) = Z.to_nat num_rounds
  /\ length (alice_bases r) = Z.to_nat num_rounds
  /\ length (bob_bases r) = Z.to_nat num_rounds
  /\ length (bob_results r) = Z.to_nat num_rounds
  /\ Forall is_binary (bob_results r)
  /\ Forall is_binary (sifted_bob r)
  /\ (sifted_length r <= Z.to_nat num_rounds)%nat.
Proof.
  intros Hrun.
  destruct (run_protocol_completed _ _ _ _ _ _ Hrun)
    as (acc & Hc & (L1 & L2 & L3 & L4) & Hn & Hab & Habs & Hbbs & Hbr & Hs & Hsl & _).
  assert (Hbin : Forall is_binary (c_bob_results acc)).
  { eapply collect_binary; [| exact Hc]. constructor. }
  rewrite sift_spec in Hs. injection Hs as Hsa Hsb.
  rewrite Hab, Habs, Hbbs, Hbr.
  do 5 (split; [assumption |]). split; [exact Hbin |]. split.
  - rewrite Hsb. apply List.Forall_forall. intros m Hm.
    apply List.in_map_iff in Hm as ([[[a_b a_k] b_b] b_m] & <- & Hin).
    apply List.filter_In in Hin as [Hin _]. cbn [bob_key].
    rewrite List.Forall_forall in Hbin. apply Hbin.
    clear -Hin. revert Hin.
    generalize (c_alice_bases acc) (c_alice_bits acc) (c_bob_bases acc).
    induction (c_bob_results acc) as [| m l IH]; intros l1 l2 l3 Hin.
    + destruct l1, l2, l3; contradiction.
    + destruct l1, l2, l3; try contradiction.
      destruct Hin as [Heq | Hin]; [inversion Heq; now left | right; eauto].
  - rewrite Hsl, Hsa, length_map.
    etransitivity; [apply List.filter_length_le |].
    clear -L1 L2 L3 L4. revert L1 L2 L3 L4.
    generalize (Z.to_nat num_rounds).
    generalize (c_alice_bases acc) (c_alice_bits acc) (c_bob_bases acc)
               (c_bob_results acc).
    induction l as [| x l IH]; intros [| ? ?] [| ? ?] [| ? ?] n; simpl; try lia.
    intros H1 H2 H3 H4. specialize (IH l0 l1 l2 (pred n)). lia.
Qed.

Lemma completed_run_shape_witness :
  raw_rounds three_round_run = 3
  /\ length (alice_bits three_round_run) = Z.to_nat 3
  /\ length (alice_bases three_round_run) = Z.to_nat 3
  /\ length (bob_bases three_round_run) = Z.to_nat 3
  /\ length (bob_results three_round_run) = Z.to_nat 3
  /\ Forall is_binary (bob_results three_round_run)
  /\ Forall is_binary (sifted_bob three_round_run)
  /\ (sifted_length three_round_run <= Z.to_nat 3)%nat.
Proof.
  apply (completed_run_shape 3 false three_round_inputs (constant_world 0 0)
           (snd (run_protocol 3 false three_round_inputs (constant_world 0 0)))
           three_round_run).
  vm_compute. reflexivity.
Defined.

(** X12. A negative [num_rounds] is taken as no round at all: the run
    returns at once with empty arrays, no [qber], the world untouched,
    and [raw_rounds] reporting the negative number as given. *)
Theorem run_protocol_no_rounds (num_rounds : Z) (use_eve : bool)
    (custom_inputs : pyval) (w : world) :
  num_rounds <= 0 ->
  run_protocol num_rounds use_eve custom_inputs w = (Ok (empty_run num_rounds), w).
Proof.
  intros Hn. unfold run_protocol.
  replace (Z.to_nat num_rounds) with 0%nat by lia. reflexivity.
Qed.

Lemma run_protocol_no_rounds_witness :
  run_protocol (-3) true three_round_inputs (constant_world 0 0)
  = (Ok (empty_run (-3)), constant_world 0 0).
Proof. apply (run_protocol_no_rounds (-3) true three_round_inputs); lia. Defined.
(** ** Supplied inputs *)

Lemma collect_custom_ok (use_eve : bool) (ci : pyval) (bits abases bbases : list atom) :
  custom_arrays ci bits abases bbases ->
  forall (k s : nat) (acc : collected) (w : world),
    (s + k <= shortest bits abases bbases)%nat ->
    exists acc' w',
      collect use_eve ci (seq s k) acc w = (Ok acc', w')
      /\ c_alice_bits acc' = c_alice_bits acc ++ take k (drop s bits)
      /\ c_alice_bases acc' = c_alice_bases acc ++ take k (drop s abases)
      /\ c_bob_bases acc' = c_bob_bases acc ++ take k (drop s bbases).
Proof.
  intros Hci. induction k as [| k IH]; intros s acc w Hs.
  - exists acc, w. cbn [seq collect take]. rewrite !app_nil_r. now repeat split.
  - cbn [seq]. rewrite collect_cons, (round_inputs_custom _ _ _ _ _ _ Hci).
    assert (Hm : (s < length bits /\ s < length abases /\ s < length bbases)%nat)
      by (unfold shortest in Hs; lia).
    destruct Hm as (H1 & H2 & H3).
    destruct (lookup_lt_is_Some_2 bits s H1) as [a Ha].
    destruct (lookup_lt_is_Some_2 abases s H2) as [ab Hab].
    destruct (lookup_lt_is_Some_2 bbases s H3) as [bb Hbb].
    rewrite Ha, Hab, Hbb.
    destruct (run_single_round_ok a ab bb use_eve w) as (c0 & _ & _ & _ & Hres & _).
    destruct (run_single_round a ab bb use_eve w) as [res w2].
    cbn [fst] in Hres. subst res.
    match goal with
    | |- context [collect use_eve ci (seq (S s) k) ?acc1 w2] =>
        destruct (IH (S s) acc1 w2 ltac:(lia)) as (acc' & w' & Hc & E1 & E2 & E3)
    end.
    exists acc', w'. split; [exact Hc |].
    rewrite E1, E2, E3. cbn [c_alice_bits c_alice_bases c_bob_bases].
    rewrite (drop_S _ _ _ Ha), (drop_S _ _ _ Hab), (drop_S _ _ _ Hbb).
    cbn [take]. rewrite <- !app_assoc. now repeat split.
Qed.

(** X13. When [custom_inputs] holds the three arrays and each has at
    least [num_rounds] elements, the run completes, and it uses the
    arrays in order, element [i] for round [i]: the run's [alice_bits],
    [alice_bases] and [bob_bases] are the first [num_rounds] elements of
    the arrays supplied (what lies beyond is ignored). An honest such run
    takes no draw from [random]. *)
Theorem custom_inputs_used_in_order (num_rounds : Z) (use_eve : bool)
    (custom_inputs : pyval) (bits abases bbases : list atom) (w : world) :
  custom_arrays custom_inputs bits abases bbases ->
  (Z.to_nat num_rounds <= shortest bits abases bbases)%nat ->
  exists r w',
    run_protocol num_rounds use_eve custom_inputs w = (Ok r, w')
    /\ alice_bits r = take (Z.to_nat num_rounds) bits
    /\ alice_bases r = take (Z.to_nat num_rounds) abases
    /\ bob_bases r = take (Z.to_nat num_rounds) bbases
    /\ (if use_eve then (py_random_pos w <= py_random_pos w')%nat
        else py_random_pos w' = py_random_pos w).
Proof.
  intros Hci Hlen.
  destruct (collect_custom_ok use_eve _ _ _ _ Hci (Z.to_nat num_rounds) 0
              empty_collected w ltac:(lia)) as (acc & w' & Hc & E1 & E2 & E3).
  destruct (collect_world use_eve custom_inputs (seq 0 (Z.to_nat num_rounds))
              empty_collected w) as (js & (_ & _ & _ & _ & _ & _ & d & Hp & Hd) & _).
  rewrite Hc in Hp. cbn [snd] in Hp.
  rewrite (custom_arrays_truthy _ _ _ _ Hci) in Hp.
  unfold run_protocol. fold empty_collected.
  erewrite bind_ok by exact Hc. unfold ret.
  eexists; eexists. split; [reflexivity |].
  cbn [alice_bits alice_bases bob_bases]. rewrite E1, E2, E3.
  do 3 (split; [reflexivity |]).
  destruct use_eve; lia.
Qed.

Lemma custom_inputs_used_in_order_witness :
  exists r w',
    run_protocol 2 false three_round_inputs (constant_world 0 0) = (Ok r, w')
    /\ alice_bits r = take (Z.to_nat 2) [AInt 1; AInt 0; AInt 1]
    /\ alice_bases r = take (Z.to_nat 2) [AStr "Z"; AStr "X"; AStr "Z"]
    /\ bob_bases r = take (Z.to_nat 2) [AStr "Z"; AStr "Z"; AStr "Z"]
    /\ py_random_pos w' = py_random_pos (constant_world 0 0).
Proof.
  apply (custom_inputs_used_in_order 2 false three_round_inputs
           [AInt 1; AInt 0; AInt 1] [AStr "Z"; AStr "X"; AStr "Z"]
           [AStr "Z"; AStr "Z"; AStr "Z"] (constant_world 0 0)).
  - eexists. repeat split; vm_compute; reflexivity.
  - vm_compute. lia.
Defined.

(** A run whose first round finds no inputs raises what that round
    raised, and leaves the world as that round left it. *)
Lemma run_protocol_first_round_raises (num_rounds : Z) (use_eve : bool) (ci : pyval)
    (w w1 : world) (e : exn) :
  0 < num_rounds ->
  round_inputs ci 0 w = (Raise e, w1) ->
  run_protocol num_rounds use_eve ci w = (Raise e, w1).
Proof.
  intros Hn Hin. unfold run_protocol.
  destruct (Z.to_nat num_rounds) as [| n] eqn:En; [lia |].
  apply bind_raise. cbn [seq]. rewrite collect_cons, Hin. reflexivity.
Qed.

(** X14. A non-empty dict that lacks one of the three keys makes the
    run fail in its first round with [KeyError], before anything is
    drawn or handed to the backend: the world is left exactly as it
    was. *)
Theorem missing_key_raises_KeyError (num_rounds : Z) (use_eve : bool)
    (d : gmap string pyval) (w : world) :
  0 < num_rounds -> lacks_a_key d ->
  run_protocol num_rounds use_eve (PDict d) w = (Raise KeyError, w).
Proof.
  intros Hn Hk. apply run_protocol_first_round_raises; [exact Hn |].
  unfold round_inputs.
  assert (Ht : truthy (PDict d) = true).
  { simpl. destruct (Nat.eqb_spec (size d) 0) as [H0 | ]; [| reflexivity].
    apply map_size_empty_iff in H0. subst d.
    destruct Hk as [[Hne _] | [(a & bits & H1 & _) | (a & bits & ab & abases & H1 & _)]];
      [congruence | |]; now rewrite lookup_empty in H1. }
  rewrite Ht. unfold bind, lift, ret, getitem_key.
  destruct Hk as [[_ H1] | [(a & bits & H1 & H2) | (a & bits & ab & abases & H1 & H2 & H3)]];
    rewrite ?H1, ?H2, ?H3; reflexivity.
Qed.

Lemma missing_key_raises_KeyError_witness :
  run_protocol 4 true
    (PDict (<["alice_bits" := PList [AInt 1]]>
            (<["bob_bases" := PList [AStr "Z"]]> ∅)))
    (constant_world 0 0)
  = (Raise KeyError, constant_world 0 0).
Proof.
  apply (missing_key_raises_KeyError 4 true
           (<["alice_bits" := PList [AInt 1]]> (<["bob_bases" := PList [AStr "Z"]]> ∅))
           (constant_world 0 0)).
  - lia.
  - right. left. exists (AInt 1), []. split; vm_compute; reflexivity.
Defined.

(** X15. A truthy [custom_inputs] that is not a dict (a non-empty list,
    a non-empty string, a non-zero number, [True]) makes the run fail
    in its first round with [TypeError], the world left exactly as it
    was. *)
Theorem non_dict_inputs_raise_TypeError (num_rounds : Z) (use_eve : bool)
    (custom_inputs : pyval) (w : world) :
  0 < num_rounds -> truthy custom_inputs = true -> is_dict custom_inputs = false ->
  run_protocol num_rounds use_eve custom_inputs w = (Raise TypeError, w).
Proof.
  intros Hn Ht Hd. apply run_protocol_first_round_raises; [exact Hn |].
  unfold round_inputs. rewrite Ht.
  destruct custom_inputs; [reflexivity | reflexivity | discriminate Hd].
Qed.

Lemma non_dict_inputs_raise_TypeError_witness :
  run_protocol 4 false (PList [AInt 1; AInt 0]) (constant_world 0 0)
  = (Raise TypeError, constant_world 0 0).
Proof.
  apply (non_dict_inputs_raise_TypeError 4 false (PList [AInt 1; AInt 0])
           (constant_world 0 0)); [lia | reflexivity | reflexivity].
Defined.
(** ** The sifted keys and the error rate at their extremes *)

Lemma omap_lookup_seq {A} (l : list A) :
  omap (fun i => l !! i) (seq 0 (length l)) = l.
Proof.
  induction l as [| x l IH]; [reflexivity |].
  cbn [length seq]. rewrite <- seq_shift, omap_cons, omap_map_S.
  change ((x :: l) !! 0%nat) with (Some x).
  change (fun i => (x :: l) !! S i) with (fun i => l !! i).
  now rewrite IH.
Qed.

Lemma sifted_by_index (num_rounds : Z) (use_eve : bool) (ci : pyval)
    (w w' : world) (r : ProtocolRun) :
  run_protocol num_rounds use_eve ci w = (Ok r, w') ->
  sifted_alice r = omap (fun i => alice_bits r !! i) (matching_rounds r)
  /\ sifted_bob r = omap (fun i => bob_results r !! i) (matching_rounds r)
  /\ length (sifted_alice r) = length (matching_rounds r)
  /\ matching_rounds r = List.filter (bases_agree r) (seq 0 (Z.to_nat num_rounds))
  /\ length (alice_bits r) = Z.to_nat num_rounds
  /\ length (bob_results r) = Z.to_nat num_rounds.
Proof.
  intros Hrun.
  destruct (run_protocol_completed _ _ _ _ _ _ Hrun)
    as (acc & _ & (L1 & L2 & L3 & L4) & Hn & Hab & Habs & Hbbs & Hbr & Hs & _).
  rewrite sift_spec in Hs. injection Hs as Hsa Hsb.
  assert (Hm : matching_rounds r
               = List.filter (agree_at (c_alice_bases acc) (c_bob_bases acc))
                             (seq 0 (Z.to_nat num_rounds))).
  { unfold matching_rounds. rewrite Hn. apply List.filter_ext. intros i.
    unfold bases_agree. now rewrite Habs, Hbbs. }
  pose proof (kept_rows_by_index _ _ _ _ _ L2 L1 L3 L4) as [Ka Kb].
  pose proof (kept_rows_length _ _ _ _ _ L2 L1 L3 L4) as Kl.
  split; [now rewrite Hsa, Hab, Hm |].
  split; [now rewrite Hsb, Hbr, Hm |].
  split; [now rewrite Hsa, length_map, Hm |].
  split; [unfold matching_rounds; now rewrite Hn |].
  now rewrite Hab, Hbr.
Qed.

(** X16. In a completed run there is no [qber] exactly when no round
    has equal bases; and when every round has equal bases nothing is
    sifted away: the sifted keys are the whole of [alice_bits] and
    [bob_results]. *)
Theorem sifting_extremes (num_rounds : Z) (use_eve : bool) (custom_inputs : pyval)
    (w w' : world) (r : ProtocolRun) :
  run_protocol num_rounds use_eve custom_inputs w = (Ok r, w') ->
  (qber r = None <-> matching_rounds r = [])
  /\ (matching_rounds r = seq 0 (Z.to_nat num_rounds) ->
      sifted_alice r = alice_bits r /\ sifted_bob r = bob_results r).
Proof.
  intros Hrun.
  destruct (sifted_by_index _ _ _ _ _ _ Hrun) as (Ha & Hb & Hl & _ & La & Lb).
  destruct (run_protocol_completed _ _ _ _ _ _ Hrun)
    as (acc & _ & _ & _ & _ & _ & _ & _ & _ & _ & Hq).
  split.
  - rewrite Hq, Hl.
    destruct (matching_rounds r) as [| i l]; cbn [length Nat.eqb];
      split; intros H; try reflexivity; discriminate H.
  - intros Hall. rewrite Ha, Hb, Hall. split.
    + rewrite <- La. apply omap_lookup_seq.
    + rewrite <- Lb. apply omap_lookup_seq.
Qed.

Lemma sifting_extremes_witness :
  (qber three_round_run = None <-> matching_rounds three_round_run = [])
  /\ (matching_rounds three_round_run = seq 0 (Z.to_nat 3) ->
      sifted_alice three_round_run = alice_bits three_round_run
      /\ sifted_bob three_round_run = bob_results three_round_run).
Proof.
  apply (sifting_extremes 3 false three_round_inputs (constant_world 0 0)
           (snd (run_protocol 3 false three_round_inputs (constant_world 0 0)))
           three_round_run).
  vm_compute. reflexivity.
Defined.

(** X17. When a completed run has a [qber], it is 0 when the sifted
    keys agree at every position and 1 when they differ at every
    position, and for a sifted key of fewer than 2^53 positions in no
    other case. (From 2^54 positions on, the float quotient rounds to 1
    when all positions but one differ.) *)
Theorem qber_extremes (num_rounds : Z) (use_eve : bool) (custom_inputs : pyval)
    (w w' : world) (r : ProtocolRun) :
  run_protocol num_rounds use_eve custom_inputs w = (Ok r, w') ->
  match qber r with
  | None => True
  | Some q =>
      (error_count r = 0%nat -> (q == 0)%Q)
      /\ (error_count r = length (sifted_alice r) -> (q == 1)%Q)
      /\ (Z.of_nat (length (sifted_alice r)) < 2 ^ 53 ->
          ((q == 0)%Q <-> error_count r = 0%nat)
          /\ ((q == 1)%Q <-> error_count r = length (sifted_alice r)))
  end.
Proof.
  intros Hrun. rewrite (qber_of_completed_run _ _ _ _ _ _ Hrun).
  destruct (Nat.eqb_spec (length (sifted_alice r)) 0) as [H0 | Hnz]; [exact I |].
  pose proof (error_count_le r) as Hle.
  destruct (int_truediv_extremes (Z.of_nat (error_count r))
              (Z.of_nat (length (sifted_alice r))) ltac:(lia) ltac:(lia))
    as (Hzero & Hone & Hsmall).
  split; [intros E; apply Hzero; lia |].
  split; [intros E; apply Hone; lia |].
  intros Hlt. destruct (Hsmall Hlt) as [Hz Ho].
  split; split; intros H.
  - specialize (Hz H). lia.
  - apply Hzero. lia.
  - specialize (Ho H). lia.
  - apply Hone. lia.
Qed.

Lemma qber_extremes_witness :
  match qber three_round_run with
  | None => True
  | Some q =>
      (error_count three_round_run = 0%nat -> (q == 0)%Q)
      /\ (error_count three_round_run = length (sifted_alice three_round_run) ->
          (q == 1)%Q)
      /\ (Z.of_nat (length (sifted_alice three_round_run)) < 2 ^ 53 ->
          ((q == 0)%Q <-> error_count three_round_run = 0%nat)
          /\ ((q == 1)%Q <-> error_count three_round_run
                             = length (sifted_alice three_round_run)))
  end.
Proof.
  apply (qber_extremes 3 false three_round_inputs (constant_world 0 0)
           (snd (run_protocol 3 false three_round_inputs (constant_world 0 0)))
           three_round_run).
  vm_compute. reflexivity.
Defined.

(** ** What a run can raise *)

Lemma round_inputs_exn (ci : pyval) (i : nat) (w w1 : world) (e : exn) :
  round_inputs ci i w = (Raise e, w1) ->
  (e = IndexError \/ e = KeyError \/ e = TypeError) /\ truthy ci = true.
Proof.
  intros Hin. destruct (truthy ci) eqn:Ht.
  - split; [| reflexivity]. revert Hin.
    unfold round_inputs. rewrite Ht. unfold bind, lift, ret.
    assert (Hk : forall v k x, getitem_key v k = Raise x -> x = KeyError \/ x = TypeError).
    { intros [a | l | d] k x; simpl; try (intros [= <-]; auto).
      destruct (d !! k); [discriminate | intros [= <-]; auto]. }
    assert (Hi : forall v j x, getitem_index v j = Raise x ->
                               x = IndexError \/ x = KeyError \/ x = TypeError).
    { intros [[| b | z | s] | l | d] j x; simpl; try (intros [= <-]; auto).
      - destruct (String.get j s); [discriminate | intros [= <-]; auto].
      - destruct (l !! j); [discriminate | intros [= <-]; auto]. }
    repeat match goal with
           | |- context [getitem_key ?v ?k] =>
               let E := fresh "E" in
               destruct (getitem_key v k) eqn:E;
               [| intros [= <- _]; destruct (Hk _ _ _ E); auto]
           | |- context [getitem_index ?v ?j] =>
               let E := fresh "E" in
               destruct (getitem_index v j) eqn:E;
               [| intros [= <- _]; apply (Hi _ _ _ E)]
           end.
    discriminate.
  - rewrite (round_inputs_falsy ci i w Ht) in Hin. discriminate Hin.
Qed.

Lemma collect_exn (use_eve : bool) (ci : pyval) (range : list nat) :
  forall (acc : collected) (w w' : world) (e : exn),
    collect use_eve ci range acc w = (Raise e, w') ->
    (e = IndexError \/ e = KeyError \/ e = TypeError) /\ truthy ci = true.
Proof.
  induction range as [| i range IH]; intros acc w w' e Hrun.
  - discriminate Hrun.
  - rewrite collect_cons in Hrun.
    destruct (round_inputs ci i w) as [[[[a ab] bb] | e1] w1] eqn:Hin.
    + destruct (run_single_round_ok a ab bb use_eve w1) as (c0 & _ & _ & _ & Hres & _).
      destruct (run_single_round a ab bb use_eve w1) as [res w2].
      cbn [fst] in Hres. subst res. eapply IH. exact Hrun.
    + injection Hrun as <- <-. eapply round_inputs_exn. exact Hin.
Qed.

Lemma run_protocol_raise_inv (num_rounds : Z) (use_eve : bool) (ci : pyval)
    (w : world) (e : exn) :
  fst (run_protocol num_rounds use_eve ci w) = Raise e ->
  (e = IndexError \/ e = KeyError \/ e = TypeError)
  /\ truthy ci = true
  /\ 0 < num_rounds.
Proof.
  intros Hrun.
  destruct (run_protocol_collect num_rounds use_eve ci w) as [_ Hf].
  destruct (collect use_eve ci (seq 0 (Z.to_nat num_rounds))
              empty_collected w) as [[acc | e1] w1] eqn:Hc; cbn [fst] in Hf.
  - destruct Hf as [r Hr]. rewrite Hr in Hrun. discriminate Hrun.
  - rewrite Hf in Hrun. injection Hrun as ->.
    destruct (collect_exn _ _ _ _ _ _ _ Hc) as [He Ht].
    split; [exact He |]. split; [exact Ht |].
    destruct (Z.to_nat num_rounds) eqn:En; [discriminate Hc | lia].
Qed.

(** X18. A run can fail only while looking up a round's inputs in a
    truthy [custom_inputs], and then with [IndexError], [KeyError] or
    [TypeError]: it never raises [ValueError], and a run on sampled
    inputs, or of no round, never raises at all. *)
Theorem run_protocol_exceptions (num_rounds : Z) (use_eve : bool)
    (custom_inputs : pyval) (w : world) (e : exn) :
  fst (run_protocol num_rounds use_eve custom_inputs w) = Raise e ->
  (e = IndexError \/ e = KeyError \/ e = TypeError)
  /\ truthy custom_inputs = true
  /\ 0 < num_rounds.
Proof. apply run_protocol_raise_inv. Qed.

Lemma run_protocol_exceptions_witness :
  (IndexError = IndexError \/ IndexError = KeyError \/ IndexError = TypeError)
  /\ truthy one_round_inputs = true
  /\ 0 < 2.
Proof.
  apply (run_protocol_exceptions 2 false one_round_inputs (constant_world 0 0) IndexError).
  vm_compute. reflexivity.
Defined.

Lemma run_protocol_sampled_ok (num_rounds : Z) (use_eve : bool) (ci : pyval) (w : world) :
  truthy ci = false ->
  exists r w', run_protocol num_rounds use_eve ci w = (Ok r, w').
Proof.
  intros Hf.
  destruct (run_protocol num_rounds use_eve ci w) as [[r | e] w'] eqn:Hrun; [eauto |].
  destruct (run_protocol_raise_inv num_rounds use_eve ci w e) as (_ & Ht & _).
  - now rewrite Hrun.
  - congruence.
Qed.

(** ** Circuits run and circuits rendered *)

Lemma honest_circuits_nil (bits abases bbases : list atom) :
  bits = [] \/ abases = [] \/ bbases = [] -> honest_circuits bits abases bbases = [].
Proof.
  intros [-> | [-> | ->]]; [reflexivity | |].
  - now destruct bits.
  - destruct bits; [reflexivity |]. now destruct abases.
Qed.

Lemma collect_honest_jobs (ci : pyval) (bits abases bbases : list atom) :
  custom_arrays ci bits abases bbases ->
  forall (k s : nat) (acc : collected) (w : world),
    jobs (snd (collect false ci (seq s k) acc w))
    = jobs w ++ honest_circuits (take k (drop s bits)) (take k (drop s abases))
                                (take k (drop s bbases)).
Proof.
  intros Hci. induction k as [| k IH]; intros s acc w.
  - cbn [seq collect ret snd take honest_circuits]. now rewrite app_nil_r.
  - cbn [seq]. rewrite collect_cons, (round_inputs_custom _ _ _ _ _ _ Hci).
    destruct (bits !! s) as [a |] eqn:Ea;
      [destruct (abases !! s) as [ab |] eqn:Eab;
       [destruct (bbases !! s) as [bb |] eqn:Ebb |] |].
    + destruct (run_single_round_ok a ab bb false w) as (c0 & _ & _ & _ & Hres & Hjobs).
      destruct (run_single_round a ab bb false w) as [res w2].
      cbn [fst snd] in Hres, Hjobs. subst res.
      rewrite IH, Hjobs, (drop_S _ _ _ Ea), (drop_S _ _ _ Eab), (drop_S _ _ _ Ebb).
      cbn [take honest_circuits]. now rewrite <- app_assoc.
    + cbn [snd]. rewrite honest_circuits_nil; [now rewrite app_nil_r |].
      right. right. apply lookup_ge_None in Ebb. now rewrite drop_ge.
    + cbn [snd]. rewrite honest_circuits_nil; [now rewrite app_nil_r |].
      right. left. apply lookup_ge_None in Eab. now rewrite drop_ge.
    + cbn [snd]. rewrite honest_circuits_nil; [now rewrite app_nil_r |].
      left. apply lookup_ge_None in Ea. now rewrite drop_ge.
Qed.

Lemma first_job_rendered_refl (w : world) : first_job_rendered w w [].
Proof.
  unfold first_job_rendered. cbn [length take Nat.eqb].
  rewrite app_nil_r, andb_true_r. split; [reflexivity |].
  split; [destruct (_DEBUG_CIRCUIT w); now rewrite app_nil_r | reflexivity].
Qed.

Lemma first_job_rendered_trans (w1 w2 w3 : world) (js1 js2 : list QuantumCircuit) :
  first_job_rendered w1 w2 js1 -> first_job_rendered w2 w3 js2 ->
  first_job_rendered w1 w3 (js1 ++ js2).
Proof.
  intros (J1 & D1 & F1) (J2 & D2 & F2). unfold first_job_rendered.
  rewrite J2, J1, D2, D1, F2, F1, <- !app_assoc, length_app.
  split; [reflexivity |]. split.
  - destruct (_DEBUG_CIRCUIT w1), js1 as [| j js1]; cbn [andb length Nat.eqb take app];
      rewrite ?app_nil_r, ?take_0; reflexivity.
  - destruct js1, js2; cbn [length Nat.add Nat.eqb]; now rewrite ?andb_false_r, ?andb_true_r.
Qed.

Lemma run_protocol_rendering (num_rounds : Z) (use_eve : bool) (ci : pyval) (w : world) :
  exists js, first_job_rendered w (snd (run_protocol num_rounds use_eve ci w)) js.
Proof.
  destruct (run_protocol_collect num_rounds use_eve ci w) as [-> _].
  destruct (collect_world use_eve ci (seq 0 (Z.to_nat num_rounds)) empty_collected w)
    as (js & (J & D & F & _) & _).
  exists js. now repeat split.
Qed.

Lemma printed_by_first_round (w w' : world) (js : list QuantumCircuit) :
  first_job_rendered w w' js ->
  printed_by_rounds w w'
  = if _DEBUG_CIRCUIT w then flat_map rendering (take 1 js) else [].
Proof.
  intros (_ & D & _). unfold printed_by_rounds. rewrite D, drop_app_length.
  now destruct (_DEBUG_CIRCUIT w).
Qed.

(** ** The command line *)

Lemma keeps_machine_bind {A B} (m : C A) (k : A -> C B) :
  keeps_machine m -> (forall a, keeps_machine (k a)) -> keeps_machine (cbind m k).
Proof.
  intros Hm Hk p. unfold cbind. specialize (Hm p).
  destruct (m p) as [[a | e] p1]; cbn [snd] in *; [| exact Hm].
  now rewrite Hk.
Qed.

Lemma keeps_machine_input (prompt : output) : keeps_machine (input prompt).
Proof. intros p. unfold input. now destruct (stdin p). Qed.

Lemma keeps_machine_print (o : output) : keeps_machine (print o).
Proof. intros p. reflexivity. Qed.

Lemma keeps_machine_checked {A} (r : Py.result A) : keeps_machine (checked r).
Proof. intros p. unfold checked. now destruct r. Qed.

Lemma keeps_machine_cret {A} (a : A) : keeps_machine (cret a).
Proof. intros p. reflexivity. Qed.

Lemma run_protocol_completed_jobs (num_rounds : Z) (use_eve : bool) (ci : pyval)
    (w w' : world) (r : ProtocolRun) :
  run_protocol num_rounds use_eve ci w = (Ok r, w') ->
  length (jobs w') = (length (jobs w) + Z.to_nat num_rounds)%nat.
Proof.
  intros Hrun.
  destruct (run_protocol_collect num_rounds use_eve ci w) as [Hs Hf].
  destruct (collect_world use_eve ci (seq 0 (Z.to_nat num_rounds)) empty_collected w)
    as (js & (Hj & _) & Hl).
  rewrite Hrun in Hs. cbn [snd] in Hs. rewrite <- Hs in Hj.
  rewrite Hrun in Hf. cbn [fst] in Hf.
  destruct (fst (collect use_eve ci (seq 0 (Z.to_nat num_rounds)) empty_collected w)).
  - rewrite Hj, length_app, Hl, length_seq. reflexivity.
  - discriminate Hf.
Qed.

Lemma run_protocol_short_arrays (num_rounds : Z) (use_eve : bool) (ci : pyval)
    (bits abases bbases : list atom) (w : world) :
  custom_arrays ci bits abases bbases ->
  (shortest bits abases bbases < Z.to_nat num_rounds)%nat ->
  fst (run_protocol num_rounds use_eve ci w) = Raise IndexError
  /\ length (jobs (snd (run_protocol num_rounds use_eve ci w)))
     = (length (jobs w) + shortest bits abases bbases)%nat.
Proof.
  intros Hci Hshort.
  destruct (collect_custom use_eve _ _ _ _ Hci (Z.to_nat num_rounds) 0 empty_collected w
              ltac:(lia)) as (js & Hj & Hl & Hf).
  destruct (Nat.leb_spec (0 + Z.to_nat num_rounds) (shortest bits abases bbases));
    [lia |].
  destruct (run_protocol_collect num_rounds use_eve ci w) as [Hs Hr].
  rewrite Hf in Hr. rewrite Hr, Hs, Hj, length_app, Hl. split; [reflexivity | lia].
Qed.

Lemma typed_inputs_arrays (bits : list Z) (a_bases b_bases : list string) :
  custom_arrays (typed_inputs bits a_bases b_bases)
                (AInt <$> bits) (AStr <$> a_bases) (AStr <$> b_bases).
Proof.
  unfold custom_arrays, typed_inputs. eexists. split; [reflexivity |].
  split; [apply lookup_insert_eq |].
  split.
  - rewrite lookup_insert_ne by discriminate. apply lookup_insert_eq.
  - rewrite !lookup_insert_ne by discriminate. apply lookup_insert_eq.
Qed.

(** The two runs of [report], case by case. *)
Lemma report_cases (num_rounds : Z) (ci : pyval) (p : process) :
  let out := report num_rounds ci p in
  match run_protocol num_rounds false ci (machine p) with
  | (Raise e, w1) =>
      fst out = Died (Python e) /\ machine (snd out) = w1
      /\ stdout (snd out)
         = stdout p ++ [running_honest] ++ printed_by_rounds (machine p) w1
  | (Ok honest, w1) =>
      match qber honest with
      | None =>
          fst out = Died (Python TypeError) /\ machine (snd out) = w1
          /\ stdout (snd out)
             = stdout p ++ [running_honest] ++ printed_by_rounds (machine p) w1
      | Some _ =>
          match run_protocol num_rounds true ci w1 with
          | (Raise e, w2) => fst out = Died (Python e) /\ machine (snd out) = w2
          | (Ok eve, w2) =>
              machine (snd out) = w2
              /\ fst out = match qber eve with
                           | None => Died (Python TypeError)
                           | Some _ => Returned tt
                           end
          end
      end
  end.
Proof.
  cbv zeta. unfold report, cbind, print, run_on_machine, checked, format_3f.
  cbn [machine stdin stdout fst snd].
  destruct (run_protocol num_rounds false ci (machine p)) as [[honest | e] w1];
    cbn [machine stdin stdout fst snd];
    [| split; [reflexivity |]; split; [reflexivity |]; now rewrite <- app_assoc].
  destruct (qber honest); cbn [machine stdin stdout fst snd];
    [| split; [reflexivity |]; split; [reflexivity |]; now rewrite <- app_assoc].
  destruct (run_protocol num_rounds true ci w1) as [[eve | e] w2];
    cbn [machine stdin stdout fst snd]; [| now split].
  destruct (qber eve); cbn [machine stdin stdout fst snd]; now split.
Qed.

Section MainProperties.

Variable str_strip_lower : string -> string.
Variable str_split : string -> list string.
Variable int_of_str : string -> Py.result Z.

Local Abbreviation read_inputs' := (read_inputs str_strip_lower str_split int_of_str).
Local Abbreviation main' := (main str_strip_lower str_split int_of_str).
Local Abbreviation custom_session' := (custom_session str_strip_lower str_split int_of_str).

Lemma read_inputs_keeps_machine : keeps_machine read_inputs'.
Proof.
  unfold read_inputs.
  apply keeps_machine_bind; [apply keeps_machine_input | intros answer].
  destruct (decide (str_strip_lower answer = "y")); [| apply keeps_machine_cret].
  repeat first
    [ apply keeps_machine_cret
    | apply keeps_machine_bind;
      [first [apply keeps_machine_input | apply keeps_machine_checked] | intros ?] ].
Qed.

Lemma read_inputs_default (p : process) (answer : string) (rest : list string) :
  stdin p = answer :: rest ->
  str_strip_lower answer <> "y" ->
  exists p1, read_inputs' p = (Returned (8, PAtom ANone), p1) /\ machine p1 = machine p.
Proof.
  intros Hin Hno. unfold read_inputs, cbind, input. rewrite Hin.
  destruct (decide (str_strip_lower answer = "y")); [contradiction |].
  eexists. split; reflexivity.
Qed.

Lemma read_inputs_custom (p : process) (n : Z) (bits : list Z) (ab bb : list string) :
  custom_session' p n bits ab bb ->
  exists p1,
    read_inputs' p = (Returned (n, typed_inputs bits ab bb), p1)
    /\ machine p1 = machine p.
Proof.
  intros (answer & l1 & l2 & l3 & l4 & rest & Hin & Hy & Hn & Hb & Ha & Hbb).
  unfold read_inputs, cbind, input, checked, cret. rewrite Hin.
  destruct (decide (str_strip_lower answer = "y")); [| contradiction].
  cbn [stdin stdout machine]. rewrite Hn. cbn [stdin stdout machine].
  rewrite Hb. cbn [stdin stdout machine]. rewrite Ha, Hbb.
  eexists. split; reflexivity.
Qed.

Lemma read_inputs_custom_stdout (p : process) (n : Z) (bits : list Z)
    (ab bb : list string) :
  custom_session' p n bits ab bb ->
  stdout (snd (read_inputs' p))
  = stdout p ++ [Text "Do you want to provide custom inputs? (y/n): ";
                 Text "Enter number of bits (e.g. 4): ";
                 TextWithCount "Enter " n " bits (0/1) for Alice, separated by spaces: ";
                 TextWithCount "Enter " n " bases (Z/X) for Alice, separated by spaces: ";
                 TextWithCount "Enter " n " bases (Z/X) for Bob, separated by spaces: "].
Proof.
  intros (answer & l1 & l2 & l3 & l4 & rest & Hin & Hy & Hn & Hb & Ha & Hbb).
  unfold read_inputs, cbind, input, checked, cret. rewrite Hin.
  destruct (decide (str_strip_lower answer = "y")); [| contradiction].
  cbn [stdin stdout machine]. rewrite Hn. cbn [stdin stdout machine].
  rewrite Hb. cbn [stdin stdout machine snd]. now rewrite <- !app_assoc.
Qed.

Lemma main_unfold (p : process) :
  let p0 := snd (print (Text ("Teleportation-based BB84 Quantum Key Distribution Simulation"
                              ++ nl)) p) in
  machine p0 = machine p /\ stdin p0 = stdin p
  /\ main' p = match read_inputs' p0 with
               | (Returned inputs, p1) => report (fst inputs) (snd inputs) p1
               | (Died e, p1) => (Died e, p1)
               end.
Proof. cbv zeta. now repeat split. Qed.

(** X19. Answered with anything but "y", [main] makes an honest run of
    8 rounds on sampled inputs, which always completes, and then, if
    that run sifted at least one bit, a run of 8 rounds with the
    eavesdropper. It ends normally when both runs have a [qber], and
    with [TypeError] as soon as one has none (the format [.3f] does not
    take [None]); it ends in no other way. *)
Theorem main_default_path (p : process) (answer : string) (rest : list string) :
  stdin p = answer :: rest ->
  str_strip_lower answer <> "y" ->
  exists honest w1,
    run_protocol 8 false (PAtom ANone) (machine p) = (Ok honest, w1)
    /\ length (jobs w1) = (length (jobs (machine p)) + 8)%nat
    /\ match qber honest with
       | None =>
           fst (main' p) = Died (Python TypeError) /\ machine (snd (main' p)) = w1
       | Some _ =>
           exists eve w2,
             run_protocol 8 true (PAtom ANone) w1 = (Ok eve, w2)
             /\ machine (snd (main' p)) = w2
             /\ length (jobs w2) = (length (jobs (machine p)) + 16)%nat
             /\ fst (main' p) = match qber eve with
                                | None => Died (Python TypeError)
                                | Some _ => Returned tt
                                end
       end.
Proof.
  intros Hin Hno.
  destruct (main_unfold p) as (Hm0 & Hs0 & Hmain). cbv zeta in *.
  set (p0 := snd (print _ p)) in *.
  destruct (read_inputs_default p0 answer rest) as (p1 & Hread & Hm1);
    [now rewrite Hs0 | exact Hno |].
  rewrite Hread in Hmain. cbn [fst snd] in Hmain.
  destruct (run_protocol_sampled_ok 8 false (PAtom ANone) (machine p) eq_refl)
    as (honest & w1 & Hh).
  exists honest, w1. split; [exact Hh |].
  pose proof (run_protocol_completed_jobs _ _ _ _ _ _ Hh) as Hj1.
  split; [exact Hj1 |].
  pose proof (report_cases 8 (PAtom ANone) p1) as Hrep. cbv zeta in Hrep.
  rewrite Hm1, Hm0, Hh, <- Hmain in Hrep.
  destruct (qber honest).
  - destruct (run_protocol_sampled_ok 8 true (PAtom ANone) w1 eq_refl)
      as (eve & w2 & He).
    rewrite He in Hrep. destruct Hrep as [Hm2 Hf].
    exists eve, w2. split; [exact He |]. split; [exact Hm2 |]. split; [| exact Hf].
    rewrite (run_protocol_completed_jobs _ _ _ _ _ _ He), Hj1.
    change (Z.to_nat 8) with 8%nat. lia.
  - destruct Hrep as (Hf & Hm2 & _). now split.
Qed.

(** X20. In a custom session whose honest run sifts no bit, [main]
    ends with [TypeError] right after that run, and the run with the
    eavesdropper is never started. Nothing about the run is printed:
    after the title, the five prompts and the line announcing the
    honest run, the standard output has only what the rounds printed,
    which is the heading and the drawing of the first round's circuit
    if [_DEBUG_CIRCUIT] was set, and nothing otherwise. *)
Theorem main_fails_without_sifted_key (p : process) (n : Z) (bits : list Z)
    (ab bb : list string) (honest : ProtocolRun) (w1 : world) :
  custom_session' p n bits ab bb ->
  run_protocol n false (typed_inputs bits ab bb) (machine p) = (Ok honest, w1) ->
  qber honest = None ->
  fst (main' p) = Died (Python TypeError)
  /\ machine (snd (main' p)) = w1
  /\ stdout (snd (main' p))
     = stdout p ++ custom_session_prompts n ++ [running_honest]
       ++ printed_by_rounds (machine p) w1
  /\ printed_by_rounds (machine p) w1
     = if _DEBUG_CIRCUIT (machine p)
       then flat_map rendering
              (take 1 (honest_circuits (take (Z.to_nat n) (AInt <$> bits))
                                       (take (Z.to_nat n) (AStr <$> ab))
                                       (take (Z.to_nat n) (AStr <$> bb))))
       else [].
Proof.
  intros Hses Hh Hq.
  destruct (main_unfold p) as (Hm0 & Hs0 & Hmain). cbv zeta in *.
  set (p0 := snd (print _ p)) in *.
  assert (Hses0 : custom_session' p0 n bits ab bb).
  { unfold custom_session in *. now rewrite Hs0. }
  destruct (read_inputs_custom p0 n bits ab bb Hses0) as (p1 & Hread & Hm1).
  pose proof (read_inputs_custom_stdout p0 n bits ab bb Hses0) as Hout1.
  rewrite Hread in Hmain, Hout1. cbn [fst snd] in Hmain, Hout1.
  pose proof (report_cases n (typed_inputs bits ab bb) p1) as Hrep. cbv zeta in Hrep.
  rewrite Hm1, Hm0, Hh, Hq, <- Hmain in Hrep.
  destruct Hrep as (Hf & Hm2 & Hout).
  split; [exact Hf |]. split; [exact Hm2 |]. split.
  - rewrite Hout, Hout1. unfold p0, print. cbn [snd stdout].
    unfold custom_session_prompts. now rewrite <- !app_assoc.
  - destruct (run_protocol_rendering n false (typed_inputs bits ab bb) (machine p))
      as [js Hjs].
    rewrite Hh in Hjs. cbn [snd] in Hjs.
    rewrite (printed_by_first_round _ _ _ Hjs).
    destruct Hjs as (Hjobs & _).
    destruct (run_protocol_collect n false (typed_inputs bits ab bb) (machine p))
      as [Hsnd _].
    rewrite Hh in Hsnd. cbn [snd] in Hsnd.
    rewrite Hsnd, (collect_honest_jobs _ _ _ _ (typed_inputs_arrays bits ab bb)) in Hjobs.
    apply app_inv_head in Hjobs. rewrite !drop_0 in Hjobs. now rewrite <- Hjobs.
Qed.

(** X21. In a custom session that asks for 0 bits, or for a negative
    number of them, [main] always ends with [TypeError]: no round is
    run, and nothing is drawn from [random] or handed to the backend. *)
Theorem main_zero_bits (p : process) (n : Z) (bits : list Z) (ab bb : list string) :
  custom_session' p n bits ab bb ->
  n <= 0 ->
  fst (main' p) = Died (Python TypeError) /\ machine (snd (main' p)) = machine p.
Proof.
  intros Hses Hn.
  destruct (main_unfold p) as (Hm0 & Hs0 & Hmain). cbv zeta in *.
  set (p0 := snd (print _ p)) in *.
  assert (Hses0 : custom_session' p0 n bits ab bb).
  { unfold custom_session in *. now rewrite Hs0. }
  destruct (read_inputs_custom p0 n bits ab bb Hses0) as (p1 & Hread & Hm1).
  rewrite Hread in Hmain. cbn [fst snd] in Hmain.
  pose proof (report_cases n (typed_inputs bits ab bb) p1) as Hrep. cbv zeta in Hrep.
  rewrite Hm1, Hm0, <- Hmain in Hrep.
  unfold run_protocol in Hrep.
  replace (Z.to_nat n) with 0%nat in Hrep by lia.
  cbn in Hrep. destruct Hrep as (Hf & Hm2 & _). now split.
Qed.

(** X22. In a custom session where one of the three lines has fewer
    entries than the number of bits announced, [main] ends with
    [IndexError] in the middle of the honest run, after as many rounds
    as the shortest line has entries. *)
Theorem main_short_line (p : process) (n : Z) (bits : list Z) (ab bb : list string) :
  custom_session' p n bits ab bb ->
  (Nat.min (length bits) (Nat.min (length ab) (length bb)) < Z.to_nat n)%nat ->
  fst (main' p) = Died (Python IndexError)
  /\ length (jobs (machine (snd (main' p))))
     = (length (jobs (machine p))
        + Nat.min (length bits) (Nat.min (length ab) (length bb)))%nat.
Proof.
  intros Hses Hshort.
  destruct (main_unfold p) as (Hm0 & Hs0 & Hmain). cbv zeta in *.
  set (p0 := snd (print _ p)) in *.
  assert (Hses0 : custom_session' p0 n bits ab bb).
  { unfold custom_session in *. now rewrite Hs0. }
  destruct (read_inputs_custom p0 n bits ab bb Hses0) as (p1 & Hread & Hm1).
  rewrite Hread in Hmain. cbn [fst snd] in Hmain.
  pose proof (report_cases n (typed_inputs bits ab bb) p1) as Hrep. cbv zeta in Hrep.
  rewrite Hm1, Hm0, <- Hmain in Hrep.
  destruct (run_protocol_short_arrays n false _ _ _ _ (machine p)
              (typed_inputs_arrays bits ab bb)) as [Hf Hj].
  { unfold shortest. now rewrite !length_fmap. }
  unfold shortest in Hj. rewrite !length_fmap in Hj.
  destruct (run_protocol n false (typed_inputs bits ab bb) (machine p)) as [res w1].
  cbn [fst snd] in Hf, Hj. subst res.
  destruct Hrep as (Hd & Hm2 & _). rewrite Hm2. now split.
Qed.

(** X23. [main] ends with [EOFError] when standard input is empty, and
    whenever it ends with [EOFError] or [ValueError] it has not run a
    single round: these come from reading the inputs only, and the
    world is as it was. *)
Theorem main_input_errors (p : process) :
  (stdin p = [] -> fst (main' p) = Died EOFError)
  /\ (fst (main' p) = Died EOFError \/ fst (main' p) = Died (Python ValueError) ->
      machine (snd (main' p)) = machine p).
Proof.
  destruct (main_unfold p) as (Hm0 & Hs0 & Hmain). cbv zeta in *.
  set (p0 := snd (print _ p)) in *.
  split.
  - intros Hnil. rewrite Hmain. unfold read_inputs, cbind, input.
    rewrite Hs0, Hnil. reflexivity.
  - pose proof (read_inputs_keeps_machine p0) as Hk.
    destruct (read_inputs' p0) as [[[n ci] | e] p1]; cbn [snd fst] in *.
    + (* the inputs were read: the two runs raise neither *)
      pose proof (report_cases n ci p1) as Hrep. cbv zeta in Hrep.
      rewrite <- Hmain in Hrep. intros Hdied. exfalso.
      destruct (run_protocol n false ci (machine p1)) as [[honest | e] w1] eqn:Hh.
      * destruct (qber honest).
        -- destruct (run_protocol n true ci w1) as [[eve | e] w2] eqn:He.
           ++ destruct Hrep as [_ Hf]. rewrite Hf in Hdied.
              destruct (qber eve); destruct Hdied; discriminate.
           ++ destruct Hrep as [Hf _]. rewrite Hf in Hdied.
              destruct (run_protocol_raise_inv n true ci w1 e) as ([-> | [-> | ->]] & _);
                [now rewrite He | | |]; destruct Hdied; discriminate.
        -- destruct Hrep as (Hf & _). rewrite Hf in Hdied.
           destruct Hdied; discriminate.
      * destruct Hrep as (Hf & _). rewrite Hf in Hdied.
        destruct (run_protocol_raise_inv n false ci (machine p1) e)
          as ([-> | [-> | ->]] & _);
          [now rewrite Hh | | |]; destruct Hdied; discriminate.
    + intros _. rewrite Hmain. cbn [snd]. now rewrite Hk.
Qed.

End MainProperties.


Lemma example_session (l1 l2 l3 l4 : string) (n : Z) (bits : list Z) :
  one_digit l1 = Ok n ->
  map_int one_digit (split_at_spaces "" l2) = Ok bits ->
  custom_session (fun s => s) (split_at_spaces "") one_digit
    (example_process ["y"; l1; l2; l3; l4]) n bits
    (split_at_spaces "" l3) (split_at_spaces "" l4).
Proof.
  intros Hn Hb. exists "y", l1, l2, l3, l4, []. now repeat split.
Qed.

Lemma main_default_path_witness :
  exists honest w1,
    run_protocol 8 false (PAtom ANone) (machine (example_process ["n"])) = (Ok honest, w1)
    /\ length (jobs w1) = (length (jobs (machine (example_process ["n"]))) + 8)%nat
    /\ match qber honest with
       | None =>
           fst (example_main (example_process ["n"])) = Died (Python TypeError)
           /\ machine (snd (example_main (example_process ["n"]))) = w1
       | Some _ =>
           exists eve w2,
             run_protocol 8 true (PAtom ANone) w1 = (Ok eve, w2)
             /\ machine (snd (example_main (example_process ["n"]))) = w2
             /\ length (jobs w2)
                = (length (jobs (machine (example_process ["n"]))) + 16)%nat
             /\ fst (example_main (example_process ["n"]))
                = match qber eve with
                  | None => Died (Python TypeError)
                  | Some _ => Returned tt
                  end
       end.
Proof.
  apply (main_default_path (fun s => s) (split_at_spaces "") one_digit
           (example_process ["n"]) "n" []); [reflexivity | discriminate].
Defined.

Lemma main_fails_without_sifted_key_witness :
  let p := example_process ["y"; "1"; "1"; "Z"; "X"] in
  let w1 := snd (run_protocol 1 false (typed_inputs [1] ["Z"] ["X"])
                   (constant_world 0 0)) in
  fst (example_main p) = Died (Python TypeError)
  /\ machine (snd (example_main p)) = w1
  /\ stdout (snd (example_main p))
     = stdout p ++ custom_session_prompts 1 ++ [running_honest]
       ++ printed_by_rounds (machine p) w1
  /\ printed_by_rounds (machine p) w1
     = if _DEBUG_CIRCUIT (machine p)
       then flat_map rendering
              (take 1 (honest_circuits (take (Z.to_nat 1) (AInt <$> [1]))
                                       (take (Z.to_nat 1) (AStr <$> ["Z"]))
                                       (take (Z.to_nat 1) (AStr <$> ["X"]))))
       else [].
Proof.
  apply (main_fails_without_sifted_key (fun s => s) (split_at_spaces "") one_digit
           (example_process ["y"; "1"; "1"; "Z"; "X"]) 1 [1] ["Z"] ["X"] unsifted_run).
  - apply (example_session "1" "1" "Z" "X"); reflexivity.
  - vm_compute. reflexivity.
  - reflexivity.
Defined.

(** The same session, printed line by line: the heading and the drawing
    of the round's circuit come after the announcement of the run. *)
Lemma unsifted_session_stdout :
  stdout (snd (example_main (example_process ["y"; "1"; "1"; "Z"; "X"])))
  = custom_session_prompts 1
    ++ [running_honest;
        Text (nl ++ "--- Example Circuit ---");
        Drawing (round_circuit None (AInt 1) (AStr "Z") (AStr "X"))].
Proof. vm_compute. reflexivity. Qed.

Lemma main_zero_bits_witness :
  fst (example_main (example_process ["y"; "0"; "1"; "Z"; "Z"])) = Died (Python TypeError)
  /\ machine (snd (example_main (example_process ["y"; "0"; "1"; "Z"; "Z"])))
     = machine (example_process ["y"; "0"; "1"; "Z"; "Z"]).
Proof.
  apply (main_zero_bits (fun s => s) (split_at_spaces "") one_digit
           (example_process ["y"; "0"; "1"; "Z"; "Z"]) 0 [1] ["Z"] ["Z"]).
  - apply (example_session "0" "1" "Z" "Z"); reflexivity.
  - lia.
Defined.

Lemma main_short_line_witness :
  fst (example_main (example_process ["y"; "3"; "1 0"; "Z X"; "Z Z"]))
  = Died (Python IndexError)
  /\ length (jobs (machine (snd (example_main
                                   (example_process ["y"; "3"; "1 0"; "Z X"; "Z Z"])))))
     = (length (jobs (machine (example_process ["y"; "3"; "1 0"; "Z X"; "Z Z"])))
        + Nat.min (length [1; 0]) (Nat.min (length ["Z"; "X"]) (length ["Z"; "Z"])))%nat.
Proof.
  apply (main_short_line (fun s => s) (split_at_spaces "") one_digit
           (example_process ["y"; "3"; "1 0"; "Z X"; "Z Z"]) 3 [1; 0]
           ["Z"; "X"] ["Z"; "Z"]).
  - apply (example_session "3" "1 0" "Z X" "Z Z"); reflexivity.
  - vm_compute. lia.
Defined.

Lemma main_input_errors_witness :
  fst (example_main (example_process [])) = Died EOFError
  /\ machine (snd (example_main (example_process []))) = machine (example_process []).
Proof.
  destruct (main_input_errors (fun s => s) (split_at_spaces "") one_digit
              (example_process [])) as [Heof Hkeep].
  split; [apply Heof; reflexivity | apply Hkeep; left; apply Heof; reflexivity].
Defined.


(** ** The four states *)

(** X24. On a fresh register [prepare_bb84_state] prepares, on the qubit
    it is given, |0> for (0, Z), |1> for (1, Z), |+> for (0, X) and |->
    for (1, X) (the last two up to the factor 1/sqrt 2), and leaves the
    other qubits in |0>. *)
Theorem prepare_bb84_state_states (q : nat) :
  (q < 3)%nat ->
  let prepared bit basis :=
    Sim.state <$> Sim.run (prepare_bb84_state [] q bit basis) in
  prepared (AInt 0) (AStr "Z") = [ket q 1 0]
  /\ prepared (AInt 1) (AStr "Z") = [ket q 0 1]
  /\ prepared (AInt 0) (AStr "X") = [ket q 1 1]
  /\ prepared (AInt 1) (AStr "X") = [ket q 1 (-1)].
Proof.
  intros Hq. destruct q as [| [| [| q]]]; try lia;
    repeat split; vm_compute; reflexivity.
Qed.

Lemma prepare_bb84_state_states_witness :
  let prepared bit basis :=
    Sim.state <$> Sim.run (prepare_bb84_state [] 0 bit basis) in
  prepared (AInt 0) (AStr "Z") = [ket 0 1 0]
  /\ prepared (AInt 1) (AStr "Z") = [ket 0 0 1]
  /\ prepared (AInt 0) (AStr "X") = [ket 0 1 1]
  /\ prepared (AInt 1) (AStr "X") = [ket 0 1 (-1)].
Proof. apply (prepare_bb84_state_states 0). lia. Defined.

(** ** The circuits of an honest run on supplied inputs *)


(** X25. On supplied inputs the circuits of an honest run are fixed by
    the inputs alone: round [i] runs the circuit of [alice_bits[i]],
    [alice_bases[i]] and [bob_bases[i]] without eavesdropper, whatever
    [random] and the backend's shots are, for each of the first
    [num_rounds] indices at which all three arrays have an element. *)
Theorem honest_run_circuits (num_rounds : Z) (custom_inputs : pyval)
    (bits abases bbases : list atom) (w : world) :
  custom_arrays custom_inputs bits abases bbases ->
  jobs (snd (run_protocol num_rounds false custom_inputs w))
  = jobs w ++ honest_circuits (take (Z.to_nat num_rounds) bits)
                              (take (Z.to_nat num_rounds) abases)
                              (take (Z.to_nat num_rounds) bbases).
Proof.
  intros Hci.
  destruct (run_protocol_collect num_rounds false custom_inputs w) as [-> _].
  now rewrite (collect_honest_jobs _ _ _ _ Hci).
Qed.

Lemma honest_run_circuits_witness :
  jobs (snd (run_protocol 2 false three_round_inputs (constant_world 0 0)))
  = jobs (constant_world 0 0)
    ++ honest_circuits (take (Z.to_nat 2) [AInt 1; AInt 0; AInt 1])
                       (take (Z.to_nat 2) [AStr "Z"; AStr "X"; AStr "Z"])
                       (take (Z.to_nat 2) [AStr "Z"; AStr "Z"; AStr "Z"]).
Proof.
  apply (honest_run_circuits 2 three_round_inputs [AInt 1; AInt 0; AInt 1]
           [AStr "Z"; AStr "X"; AStr "Z"] [AStr "Z"; AStr "Z"; AStr "Z"]
           (constant_world 0 0)).
  eexists. repeat split; vm_compute; reflexivity.
Defined.

(** ** One rendering per process *)


Section Rendering.

Variable str_strip_lower : string -> string.
Variable str_split : string -> list string.
Variable int_of_str : string -> Py.result Z.

(** X26. However [main] ends, it has rendered at most one circuit: the
    first one it handed to the backend, and only if [_DEBUG_CIRCUIT]
    was set when it started; once a round has run the flag is cleared. *)
Theorem main_renders_once (p : process) :
  exists js,
    first_job_rendered (machine p)
      (machine (snd (main str_strip_lower str_split int_of_str p))) js.
Proof.
  destruct (main_unfold str_strip_lower str_split int_of_str p) as (Hm0 & _ & ->).
  cbv zeta in *.
  set (p0 := snd (print _ p)) in *.
  pose proof (read_inputs_keeps_machine str_strip_lower str_split int_of_str p0) as Hk.
  destruct (read_inputs str_strip_lower str_split int_of_str p0)
    as [[[n ci] | e] p1]; cbn [fst snd] in *.
  - pose proof (report_cases n ci p1) as Hrep. cbv zeta in Hrep.
    rewrite Hk, Hm0 in Hrep.
    destruct (run_protocol_rendering n false ci (machine p)) as [js1 H1].
    destruct (run_protocol n false ci (machine p)) as [[honest | e] w1];
      cbn [snd] in H1.
    + destruct (qber honest).
      * destruct (run_protocol_rendering n true ci w1) as [js2 H2].
        destruct (run_protocol n true ci w1) as [[eve | e] w2]; cbn [snd] in H2;
          destruct Hrep as [Hr1 Hr2]; exists (js1 ++ js2);
          [rewrite Hr1 | rewrite Hr2]; eapply first_job_rendered_trans; eauto.
      * destruct Hrep as (_ & -> & _). eauto.
    + destruct Hrep as (_ & -> & _). eauto.
  - exists []. rewrite Hk, Hm0. apply first_job_rendered_refl.
Qed.

End Rendering.
